(** * The authenticated-request pipeline of [frontend/src/lib/api.client.ts]

    A shallow embedding of the axios client of the boilerplate: the
    [TokenManager] class with its [localStorage] mirror, the request and
    response interceptors of [apiClient], the refresh coordinator
    ([isRefreshing], [failedQueue], [processQueue]) and the navigation
    helper of [frontend/src/lib/navigation.ts].

    JavaScript runs the handlers on one event loop.  A handler runs to
    completion, then the promise jobs (microtasks) it queued run in FIFO
    order, and only then is the next network answer or timer delivered.
    The embedding follows that: [handle] is the synchronous part of one
    handler, [runMicrotasks] empties the job queue, [step] is both. *)

From stdpp Require Import base option strings list gmap pretty.

Open Scope string_scope.
Open Scope list_scope.

(** ** Data *)

(** A caller-visible promise returned by [apiClient(config)]. *)
Definition CallId := nat.

(** The part of an axios request config the interceptors read or write.
    [_retry] and [_retryCount] are the two optional markers declared at the
    end of the source; a missing [_retry] reads as [false] under [!]. *)
Record Config := mkConfig {
  method : string;
  url : string;
  Authorization : option string;
  _retry : bool;
  _retryCount : option nat
}.

Record Response := mkResponse {
  status : nat;
  data : string
}.

(** [AxiosError]: [config] and [response] are both optional. *)
Record AxiosError := mkAxiosError {
  config : option Config;
  response : option nat
}.

(** What a promise can be rejected with: an [AxiosError], another [Error],
    or a thrown value that is no [Error]. *)
Inductive Reason :=
| AxiosErr (e : AxiosError)
| PlainError (message : string)
| NonError (value : string).

Definition instanceofError (r : Reason) : bool :=
  match r with
  | NonError _ => false
  | _ => true
  end.

(** The host: whether [window] exists, when [localStorage] throws, and the
    redirect path of [AUTH_CONFIG].  Whether a write throws may depend on
    what is stored already (quota). *)
Record Env := mkEnv {
  hasWindow : bool;
  getItemThrows : bool;
  setItemThrows : gmap string string -> string -> string -> bool;
  removeItemThrows : gmap string string -> string -> bool;
  unauthorizedRedirect : string
}.

(** [class TokenManager]: its four private fields. *)
Record TokenManager := mkTokenManager {
  accessToken : option string;
  refreshToken : option string;
  isInitialized : bool;
  initPromise : option unit
}.

(** One element of [failedQueue]: the [resolve]/[reject] pair of the
    promise handed to the caller, with the [originalRequest] its [then]
    callback closes over. *)
Record QueueEntry := mkEntry {
  entryCall : CallId;
  entryRequest : Config
}.

(** The interceptor suspended at [await axios.post('/api/auth/refresh', ...)]:
    caller, [originalRequest] (already marked) and the [refreshToken] read
    before the call. *)
Record RefreshCall := mkRefreshCall {
  refreshCaller : CallId;
  refreshRequest : Config;
  refreshBody : string
}.

(** Promise jobs. [ReplayThen] and [ReplayCatch] are the reactions of a
    queued entry's promise; [Interceptor] is the head of the chain axios
    builds for [apiClient(config)]: the request interceptor, then the
    transport. *)
Inductive Microtask :=
| ReplayThen (c : CallId) (originalRequest : Config) (token : option string)
| ReplayCatch (c : CallId) (err : Reason)
| Interceptor (c : CallId) (cfg : Config).

(** Where a call of [navigateTo] ends: the registered [navigateFunction],
    [window.location.href], or nowhere (no function and no [window]). *)
Inductive NavTarget := Router | WindowLocation | NoTarget.

(** What the pipeline does to the outside world, in the order it does it.
    [RawPost] is a request made with the global [axios], which has no
    interceptor and no default [Authorization] header in this repository;
    [Invoke] is a call of [apiClient]; [Send] is a request handed to the
    transport by [apiClient]; [StorageRead] is one load of the stored pair
    by [getStoredTokens].  [console.warn] is not recorded. *)
Inductive Effect :=
| StorageRead
| RawPost (url : string) (body : string) (auth : option string)
| Invoke (c : CallId) (cfg : Config)
| Send (c : CallId) (cfg : Config)
| SetTimeout (ms : nat) (c : CallId)
| NavigateTo (path : string) (target : NavTarget)
| Resolved (c : CallId) (r : Response)
| Rejected (c : CallId) (r : Reason).

(** The module-level state of [api.client.ts] and [navigation.ts], the
    pending work of the event loop, and the trace of effects. *)
Record State := mkState {
  tokenManager : TokenManager;
  localStorage : gmap string string;
  navigateFunction : bool;
  isRefreshing : bool;
  failedQueue : list QueueEntry;
  refreshCalls : list RefreshCall;
  inFlight : gmap CallId Config;
  timers : gmap CallId Config;
  microtasks : list Microtask;
  trace : list Effect
}.

#[global] Instance Config_eq_dec : EqDecision Config.
Proof. solve_decision. Defined.
#[global] Instance Response_eq_dec : EqDecision Response.
Proof. solve_decision. Defined.
#[global] Instance AxiosError_eq_dec : EqDecision AxiosError.
Proof. solve_decision. Defined.
#[global] Instance Reason_eq_dec : EqDecision Reason.
Proof. solve_decision. Defined.
#[global] Instance NavTarget_eq_dec : EqDecision NavTarget.
Proof. solve_decision. Defined.
#[global] Instance Effect_eq_dec : EqDecision Effect.
Proof. solve_decision. Defined.

(** Field updates. *)
Definition withTokenManager (t : TokenManager) (s : State) : State :=
  mkState t (localStorage s) (navigateFunction s) (isRefreshing s)
    (failedQueue s) (refreshCalls s) (inFlight s) (timers s) (microtasks s)
    (trace s).
Definition withLocalStorage (l : gmap string string) (s : State) : State :=
  mkState (tokenManager s) l (navigateFunction s) (isRefreshing s)
    (failedQueue s) (refreshCalls s) (inFlight s) (timers s) (microtasks s)
    (trace s).
Definition withNavigateFunction (b : bool) (s : State) : State :=
  mkState (tokenManager s) (localStorage s) b (isRefreshing s)
    (failedQueue s) (refreshCalls s) (inFlight s) (timers s) (microtasks s)
    (trace s).
Definition withIsRefreshing (b : bool) (s : State) : State :=
  mkState (tokenManager s) (localStorage s) (navigateFunction s) b
    (failedQueue s) (refreshCalls s) (inFlight s) (timers s) (microtasks s)
    (trace s).
Definition withFailedQueue (q : list QueueEntry) (s : State) : State :=
  mkState (tokenManager s) (localStorage s) (navigateFunction s)
    (isRefreshing s) q (refreshCalls s) (inFlight s) (timers s)
    (microtasks s) (trace s).
Definition withRefreshCalls (r : list RefreshCall) (s : State) : State :=
  mkState (tokenManager s) (localStorage s) (navigateFunction s)
    (isRefreshing s) (failedQueue s) r (inFlight s) (timers s)
    (microtasks s) (trace s).
Definition withInFlight (m : gmap CallId Config) (s : State) : State :=
  mkState (tokenManager s) (localStorage s) (navigateFunction s)
    (isRefreshing s) (failedQueue s) (refreshCalls s) m (timers s)
    (microtasks s) (trace s).
Definition withTimers (m : gmap CallId Config) (s : State) : State :=
  mkState (tokenManager s) (localStorage s) (navigateFunction s)
    (isRefreshing s) (failedQueue s) (refreshCalls s) (inFlight s) m
    (microtasks s) (trace s).
Definition withMicrotasks (m : list Microtask) (s : State) : State :=
  mkState (tokenManager s) (localStorage s) (navigateFunction s)
    (isRefreshing s) (failedQueue s) (refreshCalls s) (inFlight s)
    (timers s) m (trace s).
Definition emit (e : Effect) (s : State) : State :=
  mkState (tokenManager s) (localStorage s) (navigateFunction s)
    (isRefreshing s) (failedQueue s) (refreshCalls s) (inFlight s)
    (timers s) (microtasks s) (trace s ++ [e]).
Definition enqueue (m : Microtask) (s : State) : State :=
  withMicrotasks (microtasks s ++ [m]) s.

(** JavaScript truthiness of a [string | null] and of a [number | undefined]. *)
Definition truthy (o : option string) : bool :=
  match o with
  | Some (String _ _) => true
  | _ => false
  end.

Definition truthyCount (o : option nat) : bool :=
  match o with
  | Some (S _) => true
  | _ => false
  end.

Definition bearer (token : string) : string := "Bearer " +:+ token.

Definition withAuthorization (h : string) (cfg : Config) : Config :=
  mkConfig (method cfg) (url cfg) (Some h) (_retry cfg) (_retryCount cfg).
Definition markRetry (cfg : Config) : Config :=
  mkConfig (method cfg) (url cfg) (Authorization cfg) true (_retryCount cfg).
Definition markRetryCount (cfg : Config) : Config :=
  mkConfig (method cfg) (url cfg) (Authorization cfg) (_retry cfg) (Some 1).

(** ** [TokenManager] *)

Section Pipeline.

Variable env : Env.

(** [localStorage.setItem] and [removeItem]; [None] is a thrown exception. *)
Definition setItem (k v : string) (l : gmap string string)
  : option (gmap string string) :=
  if setItemThrows env l k v then None else Some (<[k:=v]> l).

Definition removeItem (k : string) (l : gmap string string)
  : option (gmap string string) :=
  if removeItemThrows env l k then None else Some (delete k l).

(** [getStoredTokens]: one read of the stored pair inside [try]; a throw is
    caught and yields the null pair. *)
Definition getStoredTokens (s : State)
  : (option string * option string) * State :=
  if negb (hasWindow env) then ((None, None), s)
  else
    let s1 := emit StorageRead s in
    if getItemThrows env then ((None, None), s1)
    else ((localStorage s !! "accessToken", localStorage s !! "refreshToken"),
          s1).

Definition setInitPromise (p : option unit) (s : State) : State :=
  let t := tokenManager s in
  withTokenManager
    (mkTokenManager (accessToken t) (refreshToken t) (isInitialized t) p) s.

(** [_doInitialize].  It has no [await], so it runs to its end when called;
    [getStoredTokens] never throws, so [isInitialized] is set on the [try]
    path, and [finally] resets [initPromise]. *)
Definition _doInitialize (s : State) : State :=
  let '(stored, s1) := getStoredTokens s in
  let t := tokenManager s1 in
  let t1 :=
    if truthy (stored.1) && truthy (stored.2)
    then mkTokenManager (stored.1) (stored.2) (isInitialized t) (initPromise t)
    else t in
  let t2 := mkTokenManager (accessToken t1) (refreshToken t1) true
              (initPromise t1) in
  setInitPromise None (withTokenManager t2 s1).

(** [initialize].  The assignment [this.initPromise = this._doInitialize()]
    happens after [_doInitialize] has run, [finally] included. *)
Definition initialize (s : State) : State :=
  if isInitialized (tokenManager s) || negb (hasWindow env) then s
  else
    match initPromise (tokenManager s) with
    | Some _ => s
    | None => setInitPromise (Some ()) (_doInitialize s)
    end.

Definition setTokens (access refresh : string) (s : State) : State :=
  let t := tokenManager s in
  let s1 :=
    withTokenManager
      (mkTokenManager (Some access) (Some refresh) (isInitialized t)
         (initPromise t)) s in
  if hasWindow env then
    match setItem "accessToken" access (localStorage s1) with
    | None => s1
    | Some l1 =>
        match setItem "refreshToken" refresh l1 with
        | None => withLocalStorage l1 s1
        | Some l2 => withLocalStorage l2 s1
        end
    end
  else s1.

Definition clearTokens (s : State) : State :=
  let t := tokenManager s in
  let s1 :=
    withTokenManager
      (mkTokenManager None None (isInitialized t) (initPromise t)) s in
  if hasWindow env then
    match removeItem "accessToken" (localStorage s1) with
    | None => s1
    | Some l1 =>
        match removeItem "refreshToken" l1 with
        | None => withLocalStorage l1 s1
        | Some l2 => withLocalStorage l2 s1
        end
    end
  else s1.

Definition getAccessToken (s : State) : option string :=
  accessToken (tokenManager s).

Definition getRefreshToken (s : State) : option string :=
  refreshToken (tokenManager s).

(** ** [navigation.ts] *)

Definition navigateTo (path : string) (s : State) : State :=
  if navigateFunction s then emit (NavigateTo path Router) s
  else if hasWindow env then emit (NavigateTo path WindowLocation) s
  else emit (NavigateTo path NoTarget) s.

Definition navigateToLogin (s : State) : State :=
  navigateTo (unauthorizedRedirect env) s.

(** ** The wrapped client *)

(** [apiClient(config)]: axios starts the promise chain with
    [Promise.resolve(config).then(requestInterceptor)...], so the call only
    queues a job.  The request interceptor is asynchronous.  Once the store
    is initialised (or where there is no [window]) every call's chain has
    the same number of jobs between this one and the transport, so one job
    stands for the chain.  The call whose interceptor runs [_doInitialize]
    takes more jobs, its [initialize] returning a promise: of several calls
    started in one turn on a store not yet initialised, that one reaches
    the transport last.  Here a call on such a store is alone in its turn
    (see [Event]), so the order of the sends is not affected.  axios merges
    the config it is given into the config of the new request, the two
    markers included, so a resubmitted request carries the marks of
    [originalRequest]. *)
Definition apiClient (c : CallId) (cfg : Config) (s : State) : State :=
  enqueue (Interceptor c cfg) (emit (Invoke c cfg) s).

(** The request interceptor: [await tokenManager.initialize()], then attach
    the bearer header when an access token is held.  axios always gives the
    config a [headers] object before the interceptors run, so the
    [config.headers] tests of the source are true. *)
Definition requestInterceptor (cfg : Config) (s : State) : Config * State :=
  let s1 := initialize s in
  let accessToken := getAccessToken s1 in
  (if truthy accessToken
   then withAuthorization (bearer (default "" accessToken)) cfg
   else cfg,
   s1).

(** The request interceptor followed by the transport. *)
Definition dispatch (c : CallId) (cfg : Config) (s : State) : State :=
  let '(cfg1, s1) := requestInterceptor cfg s in
  emit (Send c cfg1) (withInFlight (<[c:=cfg1]> (inFlight s1)) s1).

(** [processQueue(error, token)]: [forEach] settles the entries in array
    order; settling a promise queues its reaction, it does not run it. *)
Definition processQueue (error : option Reason) (token : option string)
    (s : State) : State :=
  withFailedQueue []
    (foldl
       (fun acc e =>
          match error with
          | Some err => enqueue (ReplayCatch (entryCall e) err) acc
          | None => enqueue (ReplayThen (entryCall e) (entryRequest e) token) acc
          end)
       s (failedQueue s)).

(** The [then] callback of a queued entry. *)
Definition replayThen (c : CallId) (originalRequest : Config)
    (token : option string) (s : State) : State :=
  let originalRequest1 :=
    if truthy token
    then withAuthorization (bearer (default "" token)) originalRequest
    else originalRequest in
  apiClient c originalRequest1 s.

(** The rejected handler of the response interceptor, up to its first
    [await]. [c] is the promise the handler settles. *)
Definition onRejected (c : CallId) (error : AxiosError) (s : State) : State :=
  match config error with
  | Some originalRequest =>
      if bool_decide (response error = Some 401)
         && negb (_retry originalRequest)
      then
        let refreshToken := getRefreshToken s in
        if negb (truthy refreshToken) then
          emit (Rejected c (AxiosErr error)) (navigateToLogin (clearTokens s))
        else if isRefreshing s then
          withFailedQueue (failedQueue s ++ [mkEntry c originalRequest]) s
        else
          let originalRequest1 := markRetry originalRequest in
          let body := default "" refreshToken in
          emit (RawPost "/api/auth/refresh" body None)
            (withRefreshCalls
               (refreshCalls s ++ [mkRefreshCall c originalRequest1 body])
               (withIsRefreshing true s))
      else if bool_decide (response error = None)
              && negb (truthyCount (_retryCount originalRequest))
      then
        emit (SetTimeout 1000 c)
          (withTimers (<[c:=markRetryCount originalRequest]> (timers s)) s)
      else emit (Rejected c (AxiosErr error)) s
  | None => emit (Rejected c (AxiosErr error)) s
  end.

(** The rest of the [try] block once [axios.post] has answered with a new
    pair, then [finally].  [return apiClient(originalRequest)] evaluates the
    call, runs [finally], and ties the caller's promise to the new request. *)
Definition refreshSucceeded (rc : RefreshCall)
    (newAccessToken newRefreshToken : string) (s : State) : State :=
  let s1 := setTokens newAccessToken newRefreshToken s in
  let s2 := processQueue None (Some newAccessToken) s1 in
  let originalRequest :=
    withAuthorization (bearer newAccessToken) (refreshRequest rc) in
  let s3 := apiClient (refreshCaller rc) originalRequest s2 in
  withIsRefreshing false s3.

(** The [catch] block, then [finally]. *)
Definition refreshFailed (rc : RefreshCall) (refreshError : Reason)
    (s : State) : State :=
  let s1 :=
    processQueue
      (Some (if instanceofError refreshError then refreshError
             else PlainError "Token refresh failed"))
      None s in
  let s2 := clearTokens s1 in
  let s3 := navigateToLogin s2 in
  let s4 := emit (Rejected (refreshCaller rc) refreshError) s3 in
  withIsRefreshing false s4.

(** ** The event loop *)

Definition runMicrotask (m : Microtask) (s : State) : State :=
  match m with
  | ReplayThen c originalRequest token => replayThen c originalRequest token s
  | ReplayCatch c err => emit (Rejected c err) s
  | Interceptor c cfg => dispatch c cfg s
  end.

Fixpoint runMicrotasks (fuel : nat) (s : State) : State :=
  match fuel with
  | 0 => s
  | S fuel' =>
      match microtasks s with
      | [] => s
      | m :: rest => runMicrotasks fuel' (runMicrotask m (withMicrotasks rest s))
      end
  end.

(** A [ReplayThen] job queues one more job, the others none. *)
Definition jobWeight (m : Microtask) : nat :=
  match m with
  | ReplayThen _ _ _ => 2
  | _ => 1
  end.

Definition jobsWeight (l : list Microtask) : nat :=
  foldr (fun m n => jobWeight m + n) 0 l.

Definition drain (s : State) : State :=
  runMicrotasks (jobsWeight (microtasks s)) s.

(** First outstanding refresh call awaited by [c], and the others. *)
Fixpoint takeRefresh (c : CallId) (l : list RefreshCall)
  : option (RefreshCall * list RefreshCall) :=
  match l with
  | [] => None
  | rc :: l' =>
      if bool_decide (refreshCaller rc = c) then Some (rc, l')
      else
        match takeRefresh c l' with
        | Some (r, l'') => Some (r, rc :: l'')
        | None => None
        end
  end.

(** What the outside delivers to the event loop: a caller's request under
    a call id of its choice, the answer of the transport to a request in
    flight ([resp] is the status, [None] when there was no response), the
    end of a refresh call, a timer, and the exported functions used by the
    login and logout flows.  Each [Request] is a call made in a turn of
    its own.  [RefreshOk] is a 2xx answer of the refresh endpoint whose
    body is a [TokenResponse], with its two strings.  The source does not
    validate the body: from one without them the destructuring takes
    [undefined] and [setTokens] stores it; such an answer is not among the
    events.  [RefreshError] is what the [catch] block receives: a
    rejection of [axios.post], or an exception of the destructuring. *)
Inductive Event :=
| Request (c : CallId) (cfg : Config)
| ResponseOk (c : CallId) (r : Response)
| ResponseError (c : CallId) (resp : option nat)
| RefreshOk (c : CallId) (newAccessToken newRefreshToken : string)
| RefreshError (c : CallId) (refreshError : Reason)
| TimerFired (c : CallId)
| SetTokens (access refresh : string)
| ClearTokens
| SetNavigateFunction.

(** The synchronous part of handling one event.  An answer for a call that
    is not waiting for one is ignored. *)
Definition handle (ev : Event) (s : State) : State :=
  match ev with
  | Request c cfg => apiClient c cfg s
  | ResponseOk c r =>
      match inFlight s !! c with
      | Some _ => emit (Resolved c r) (withInFlight (delete c (inFlight s)) s)
      | None => s
      end
  | ResponseError c resp =>
      match inFlight s !! c with
      | Some cfg =>
          onRejected c (mkAxiosError (Some cfg) resp)
            (withInFlight (delete c (inFlight s)) s)
      | None => s
      end
  | RefreshOk c a r =>
      match takeRefresh c (refreshCalls s) with
      | Some (rc, rest) => refreshSucceeded rc a r (withRefreshCalls rest s)
      | None => s
      end
  | RefreshError c e =>
      match takeRefresh c (refreshCalls s) with
      | Some (rc, rest) => refreshFailed rc e (withRefreshCalls rest s)
      | None => s
      end
  | TimerFired c =>
      match timers s !! c with
      | Some cfg => apiClient c cfg (withTimers (delete c (timers s)) s)
      | None => s
      end
  | SetTokens a r => setTokens a r s
  | ClearTokens => clearTokens s
  | SetNavigateFunction => withNavigateFunction true s
  end.

Definition step (s : State) (ev : Event) : State := drain (handle ev s).

Definition run (s : State) (evs : list Event) : State := foldl step s evs.

End Pipeline.

(** The module as loaded: [new TokenManager()], nothing pending. *)
Definition initialState (stored : gmap string string) : State :=
  mkState (mkTokenManager None None false None) stored false false [] [] ∅ ∅
    [] [].

(** ** Reading a trace *)

Definition refreshPosts (tr : list Effect) : list string :=
  omap (fun e => match e with RawPost _ b _ => Some b | _ => None end) tr.

Definition invocations (tr : list Effect) : list CallId :=
  omap (fun e => match e with Invoke c _ => Some c | _ => None end) tr.

Definition sends (tr : list Effect) : list (CallId * Config) :=
  omap (fun e => match e with Send c cfg => Some (c, cfg) | _ => None end) tr.

Definition rejections (tr : list Effect) : list (CallId * Reason) :=
  omap (fun e => match e with Rejected c r => Some (c, r) | _ => None end) tr.

Definition navigations (tr : list Effect) : list string :=
  omap (fun e => match e with NavigateTo p _ => Some p | _ => None end) tr.

Definition storageReads (tr : list Effect) : nat :=
  length (filter (fun e => e = StorageRead) tr).

(** ** Scenarios *)

(** A browser whose storage never throws, with the redirect path of
    [DEFAULT_AUTH_CONFIG]. *)
Definition browser : Env :=
  mkEnv true false (fun _ _ _ => false) (fun _ _ => false) "/login".

Definition get (path : string) : Config :=
  mkConfig "GET" path None false None.

(** Scenarios 7 and 8 of the specification: the pair [("A1","R1")] is held,
    [GET /x], [GET /y] and [GET /z] are sent, then all three answered 401. *)
Definition threeInFlight : State :=
  run browser (initialState ∅)
    [SetNavigateFunction; SetTokens "A1" "R1";
     Request 0 (get "/x"); Request 1 (get "/y"); Request 2 (get "/z")].

Definition threeUnauthorized : State :=
  run browser threeInFlight
    [ResponseError 0 (Some 401); ResponseError 1 (Some 401);
     ResponseError 2 (Some 401)].

(** A request sent without credentials, nothing stored. *)
Definition anonymousInFlight : State :=
  run browser (initialState ∅) [SetNavigateFunction; Request 0 (get "/x")].

(** A request as the transport saw it, with the bearer header on. *)
Definition sent (token path : string) : Config :=
  withAuthorization (bearer token) (get path).

(** ** The credential store on its own *)

(** The three operations of the store. *)
Inductive StoreOp :=
| OpInitialize
| OpSetCredentials (access refresh : string)
| OpClearCredentials.

Definition applyOp (env : Env) (s : State) (op : StoreOp) : State :=
  match op with
  | OpInitialize => initialize env s
  | OpSetCredentials a r => setTokens env a r s
  | OpClearCredentials => clearTokens env s
  end.

(** Both credentials held, or neither. *)
Definition pairOk (t : TokenManager) : Prop :=
  is_Some (accessToken t) <-> is_Some (refreshToken t).

(** The same for the mirror in [localStorage], which the exported
    [getStoredTokens] reads. *)
Definition storedPairOk (l : gmap string string) : Prop :=
  is_Some (l !! "accessToken") <-> is_Some (l !! "refreshToken").

(** [localStorage] never throws. *)
Definition storageReliable (env : Env) : Prop :=
  (forall l k v, setItemThrows env l k v = false) /\
  (forall l k, removeItemThrows env l k = false).

(** Two callers of [initialize]: [InitCall] runs the body, [InitDone] is the
    caller resuming after its [await] and reading the pair. *)
Inductive InitEvent :=
| InitCall (who : nat)
| InitDone (who : nat).

Definition Observation : Type := nat * (option string * option string).

Definition initStep (env : Env) (acc : State * list Observation)
    (e : InitEvent) : State * list Observation :=
  match e with
  | InitCall _ => (initialize env acc.1, acc.2)
  | InitDone w =>
      (acc.1, acc.2 ++ [(w, (getAccessToken acc.1, getRefreshToken acc.1))])
  end.

Inductive Interleave {A : Type} : list A -> list A -> list A -> Prop :=
| Interleave_nil : Interleave [] [] []
| Interleave_left x l1 l2 l :
    Interleave l1 l2 l -> Interleave (x :: l1) l2 (x :: l)
| Interleave_right x l1 l2 l :
    Interleave l1 l2 l -> Interleave l1 (x :: l2) (x :: l).

Definition completions (sched : list InitEvent) : list nat :=
  omap (fun e => match e with InitDone w => Some w | _ => None end) sched.

(** ** Vocabulary of the statements *)

Definition withTrace (tr : list Effect) (s : State) : State :=
  mkState (tokenManager s) (localStorage s) (navigateFunction s)
    (isRefreshing s) (failedQueue s) (refreshCalls s) (inFlight s)
    (timers s) (microtasks s) tr.

(** [initialize] has nothing left to do: it ran, or there is no [window]. *)
Definition initDone (env : Env) (s : State) : bool :=
  isInitialized (tokenManager s) || negb (hasWindow env).

Definition insertAll (l : list (CallId * Config)) (m : gmap CallId Config)
  : gmap CallId Config :=
  foldl (fun acc p => <[p.1:=p.2]> acc) m l.

Definition attach (token : string) (p : CallId * Config) : CallId * Config :=
  (p.1, withAuthorization (bearer token) p.2).

Definition entryPair (e : QueueEntry) : CallId * Config :=
  (entryCall e, entryRequest e).

Definition invokeOf (p : CallId * Config) : Effect := Invoke p.1 p.2.
Definition sendOf (p : CallId * Config) : Effect := Send p.1 p.2.
Definition interceptorOf (p : CallId * Config) : Microtask :=
  Interceptor p.1 p.2.

(** Where [navigateTo] sends the user in state [s]. *)
Definition navTarget (env : Env) (s : State) : NavTarget :=
  if navigateFunction s then Router
  else if hasWindow env then WindowLocation else NoTarget.

(** The error [processQueue] is given in the [catch] block. *)
Definition queueError (refreshError : Reason) : Reason :=
  if instanceofError refreshError then refreshError
  else PlainError "Token refresh failed".

Definition unauthorized (cfg : Config) : AxiosError :=
  mkAxiosError (Some cfg) (Some 401).

(** The refresh coordinator as seen from outside: the flag, the queue, the
    outstanding refresh calls, and the refresh calls issued so far. *)
Definition coordinator (s : State)
  : bool * list QueueEntry * list RefreshCall * list string :=
  (isRefreshing s, failedQueue s, refreshCalls s, refreshPosts (trace s)).

(** The effects of handling one event in state [s]. *)
Definition effectsOf (env : Env) (s : State) (ev : Event) : list Effect :=
  drop (length (trace s)) (trace (step env s ev)).

(** How a refresh call ends. *)
Inductive RefreshOutcome :=
| Renewed (newAccessToken newRefreshToken : string)
| Failed (refreshError : Reason).

Definition settle (c : CallId) (o : RefreshOutcome) : Event :=
  match o with
  | Renewed a r => RefreshOk c a r
  | Failed e => RefreshError c e
  end.

Definition unauthorizedAnswer (p : CallId * Config) : Event :=
  ResponseError p.1 (Some 401).

Definition entryOf (p : CallId * Config) : QueueEntry := mkEntry p.1 p.2.

Definition deleteAll (l : list CallId) (m : gmap CallId Config)
  : gmap CallId Config :=
  foldl (fun acc c => delete c acc) m l.

(** [x] is started before [y] in the list of calls [l]. *)
Definition startedBefore (x y : CallId) (l : list CallId) : Prop :=
  exists l1 l2 l3, l = l1 ++ x :: l2 ++ y :: l3.

(** The replay order the specification describes: the queued calls are
    started in queue order and the triggering call is not started ahead of
    any of them. *)
Definition replayedAsQueued (trigger : CallId) (queued : list CallId)
    (started : list CallId) : Prop :=
  filter (fun c => c ∈ queued) started = queued /\
  forall c, c ∈ queued -> ~ startedBefore trigger c started.

(** The flag tells whether a refresh call is outstanding, there is never
    more than one, and nothing waits in the queue unless one is. *)
Definition coordinated (s : State) : Prop :=
  length (refreshCalls s) = (if isRefreshing s then 1 else 0) /\
  (isRefreshing s = false -> failedQueue s = []).

(** ** The rest of the store's surface *)

(** The exported [getStoredTokens] of [api.client.ts]: a second function
    with the body of the private method. *)
Definition exportedGetStoredTokens (env : Env) (s : State)
  : (option string * option string) * State :=
  getStoredTokens env s.

(** [useCurrentUser]: the query runs when [!!accessToken], the access token
    being the one [getStoredTokens()] reads from storage. *)
Definition currentUserEnabled (env : Env) (s : State) : bool :=
  truthy (exportedGetStoredTokens env s).1.1.

(** A page load: the module is evaluated again, [new TokenManager()] over
    the storage the last page left. *)
Definition reload (s : State) : State := initialState (localStorage s).

(** The two keys the store owns. *)
Definition tokenKey (k : string) : Prop :=
  k = "accessToken" \/ k = "refreshToken".

(** What [_doInitialize] leaves in memory: the stored pair when both values
    are read and truthy, else what was there. *)
Definition loadedPair (env : Env) (s : State) : option string * option string :=
  if getItemThrows env then (getAccessToken s, getRefreshToken s)
  else if truthy (localStorage s !! "accessToken")
          && truthy (localStorage s !! "refreshToken")
  then (localStorage s !! "accessToken", localStorage s !! "refreshToken")
  else (getAccessToken s, getRefreshToken s).

(** The job [processQueue] queues for an entry. *)
Definition settleJob (error : option Reason) (token : option string)
    (e : QueueEntry) : Microtask :=
  match error with
  | Some err => ReplayCatch (entryCall e) err
  | None => ReplayThen (entryCall e) (entryRequest e) token
  end.

(** The shapes of the effects the pipeline produces: storage is read only
    where [window] exists; the raw post goes to the refresh endpoint with a
    non-empty token and no [Authorization]; navigation goes to the
    unauthorized redirect; the timer is the one-second one. *)
Definition effectOk (env : Env) (e : Effect) : Prop :=
  match e with
  | StorageRead => hasWindow env = true
  | RawPost u b h => u = "/api/auth/refresh" /\ b <> "" /\ h = None
  | NavigateTo p _ => p = unauthorizedRedirect env
  | SetTimeout ms _ => ms = 1000
  | _ => True
  end.

(** The effects a promise job can have. *)
Definition jobEffect (env : Env) (e : Effect) : Prop :=
  match e with
  | StorageRead => hasWindow env = true
  | Invoke _ _ | Send _ _ | Rejected _ _ => True
  | _ => False
  end.

(** The effects the synchronous part of a handler can have. *)
Definition handlerEffect (env : Env) (e : Effect) : Prop :=
  effectOk env e /\ e <> StorageRead.

(** Storage was read at most once, and only by the call of [initialize]
    that marked the store initialized. *)
Definition loadedOnce (s : State) : Prop :=
  if isInitialized (tokenManager s) then storageReads (trace s) <= 1
  else storageReads (trace s) = 0.

(** ** Vocabulary of the invariants *)

(** The marks of the waiting requests: a queued request is not marked
    [_retry]; the request of an outstanding refresh call is, and the call
    carries a non-empty token. *)
Definition marksOk (s : State) : Prop :=
  Forall (fun e => _retry (entryRequest e) = false) (failedQueue s) /\
  Forall (fun rc => _retry (refreshRequest rc) = true /\ refreshBody rc <> "")
    (refreshCalls s).

(** The caller a job works for. *)
Definition jobCall (m : Microtask) : CallId :=
  match m with
  | ReplayThen c _ _ => c
  | ReplayCatch c _ => c
  | Interceptor c _ => c
  end.

(** The callers whose promise is pending, by where their request waits: in
    a promise job, at the transport, on the retry timer, in the queue, or
    behind its own refresh call. *)
Definition waiting (s : State) : list CallId :=
  map jobCall (microtasks s)
  ++ (map_to_list (inFlight s)).*1
  ++ (map_to_list (timers s)).*1
  ++ map entryCall (failedQueue s)
  ++ map refreshCaller (refreshCalls s).

(** The callers whose promise was settled, once per settlement. *)
Definition settled (tr : list Effect) : list CallId :=
  omap (fun e =>
          match e with
          | Resolved c _ => Some c
          | Rejected c _ => Some c
          | _ => None
          end) tr.

(** The callers that asked for a request. *)
Definition requests (evs : list Event) : list CallId :=
  omap (fun ev => match ev with Request c _ => Some c | _ => None end) evs.

(** Every caller in [ids] is accounted for: waiting in one place, or
    settled once. *)
Definition accounted (s : State) (ids : list CallId) : Prop :=
  waiting s ++ settled (trace s) ≡ₚ ids.

(** [GET /y] of scenario 7 first fails with no response and is retried
    after the delay; then the three requests are answered 401. *)
Definition retriedThenUnauthorized : State :=
  run browser threeInFlight
    [ResponseError 1 None; TimerFired 1;
     ResponseError 0 (Some 401); ResponseError 1 (Some 401);
     ResponseError 2 (Some 401)].

(** ** [auth.config.ts] *)

Module auth_config.

Record AuthConfig := mkAuthConfig {
  loginRedirect : string;
  logoutRedirect : string;
  unauthorizedRedirect : string;
  registerRedirect : option string
}.

(** [Partial<AuthConfig>]: [None] is a key the object does not have. *)
Record PartialAuthConfig := mkPartialAuthConfig {
  partialLoginRedirect : option string;
  partialLogoutRedirect : option string;
  partialUnauthorizedRedirect : option string;
  partialRegisterRedirect : option (option string)
}.

Definition DEFAULT_AUTH_CONFIG : AuthConfig :=
  mkAuthConfig "/dashboard" "/login" "/login" (Some "/dashboard").

(** [a || b] where [a] is a [string | undefined]: a missing variable and
    the empty string both give [b]. *)
Definition orElse {A} (inj : string -> A) (a : option string) (b : A) : A :=
  match a with
  | Some (String c r) => inj (String c r)
  | _ => b
  end.

(** [getAuthConfigFromEnv]; [processEnv] is [process.env]. *)
Definition getAuthConfigFromEnv (hasWindow : bool)
    (processEnv : string -> option string) : PartialAuthConfig :=
  if hasWindow then mkPartialAuthConfig None None None None
  else
    mkPartialAuthConfig
      (Some (orElse id (processEnv "NEXT_PUBLIC_LOGIN_REDIRECT")
               (loginRedirect DEFAULT_AUTH_CONFIG)))
      (Some (orElse id (processEnv "NEXT_PUBLIC_LOGOUT_REDIRECT")
               (logoutRedirect DEFAULT_AUTH_CONFIG)))
      (Some (orElse id (processEnv "NEXT_PUBLIC_UNAUTHORIZED_REDIRECT")
               (unauthorizedRedirect DEFAULT_AUTH_CONFIG)))
      (Some (orElse Some (processEnv "NEXT_PUBLIC_REGISTER_REDIRECT")
               (registerRedirect DEFAULT_AUTH_CONFIG))).

(** [{ ...base, ...over }]: a key of [over] wins. *)
Definition spread (base : AuthConfig) (over : PartialAuthConfig) : AuthConfig :=
  mkAuthConfig
    (default (loginRedirect base) (partialLoginRedirect over))
    (default (logoutRedirect base) (partialLogoutRedirect over))
    (default (unauthorizedRedirect base) (partialUnauthorizedRedirect over))
    (default (registerRedirect base) (partialRegisterRedirect over)).

Definition AUTH_CONFIG (hasWindow : bool)
    (processEnv : string -> option string) : AuthConfig :=
  spread DEFAULT_AUTH_CONFIG (getAuthConfigFromEnv hasWindow processEnv).

End auth_config.

(** The host as [navigation.ts] sees it: the path [navigateToLogin] uses is
    the [unauthorizedRedirect] of the [AUTH_CONFIG] the same host built. *)
Definition withAuthConfig (processEnv : string -> option string) (env : Env)
  : Env :=
  mkEnv (hasWindow env) (getItemThrows env) (setItemThrows env)
    (removeItemThrows env)
    (auth_config.unauthorizedRedirect
       (auth_config.AUTH_CONFIG (hasWindow env) processEnv)).

(** ** [error.guards.ts] *)

Module error_guards.

(** One entry of a FastAPI validation error; only [msg] is read. *)
Record ValidationError := mkValidationError { msg : string }.

(** [data.detail]: a string, an array of validation errors, or neither
    (missing, or of another type). *)
Inductive Detail :=
| NoDetail
| DetailString (s : string)
| DetailArray (errs : list ValidationError).

(** [response.data], with the optional [message] of the interface. *)
Record ResponseData := mkResponseData {
  detail : Detail;
  dataMessage : option string
}.

(** [response]; [data] is [None] when missing or falsy. *)
Record ErrorResponse := mkErrorResponse {
  status : nat;
  data : option ResponseData
}.

(** The interface [AxiosErrorResponse]. *)
Record AxiosErrorResponse := mkAxiosErrorResponse {
  response : option ErrorResponse;
  message : string;
  code : option string
}.

(** A value of type [unknown], as far as the guards tell values apart: an
    object with a string [message], read through the interface the guard
    asserts, and whether it is an [Error] instance; another object; a string;
    anything else.  An [Error] instance has a string [message] (its own or
    the one of [Error.prototype]), so it is of the first kind. *)
Inductive Unknown :=
| WithMessage (e : AxiosErrorResponse) (instanceofError : bool)
| OtherObject
| StringValue (s : string)
| OtherValue.

(** The guards return the narrowed value. *)
Definition isAxiosError (error : Unknown) : option AxiosErrorResponse :=
  match error with
  | WithMessage e _ => Some e
  | _ => None
  end.

Definition isError (error : Unknown) : option AxiosErrorResponse :=
  match error with
  | WithMessage e true => Some e
  | _ => None
  end.

Definition hasMessage (error : Unknown) : option AxiosErrorResponse :=
  match error with
  | WithMessage e _ => Some e
  | _ => None
  end.

(** [Array.prototype.join]. *)
Fixpoint join (sep : string) (l : list string) : string :=
  match l with
  | [] => ""
  | [x] => x
  | x :: l' => x +:+ sep +:+ join sep l'
  end.

(** The [switch] on the status. *)
Definition statusMessage (status : nat) : string :=
  if bool_decide (status = 400) then "Invalid request. Please check your input."
  else if bool_decide (status = 401) then "Authentication required. Please log in."
  else if bool_decide (status = 403) then "Access denied. You do not have permission."
  else if bool_decide (status = 404) then "Resource not found."
  else if bool_decide (status = 409) then "Conflict. The resource already exists."
  else if bool_decide (status = 422) then "Validation error. Please check your input."
  else if bool_decide (status = 429) then "Too many requests. Please try again later."
  else if bool_decide (status = 500) then "Server error. Please try again later."
  else "Request failed with status " +:+ pretty status.

(** The block under [if (response?.data)]: the message it returns, or
    [None] when it falls through. *)
Definition dataMessageOf (d : ResponseData) : option string :=
  match detail d with
  | DetailArray errs => Some (join ", " (map msg errs))
  | DetailString s => Some s
  | NoDetail => if truthy (dataMessage d) then dataMessage d else None
  end.

Definition getErrorMessage (error : Unknown) : string :=
  match isAxiosError error with
  | Some e =>
      let fromData :=
        match response e with
        | Some r =>
            match data r with
            | Some d => dataMessageOf d
            | None => None
            end
        | None => None
        end in
      let fallback :=
        if bool_decide (message e = "") then "An unexpected error occurred"
        else message e in
      match fromData with
      | Some m => m
      | None =>
          match response e with
          | Some r =>
              if bool_decide (status r = 0) then fallback
              else statusMessage (status r)
          | None => fallback
          end
      end
  | None =>
      match isError error with
      | Some e => message e
      | None =>
          match hasMessage error with
          | Some e => message e
          | None =>
              match error with
              | StringValue s => s
              | _ => "An unexpected error occurred"
              end
          end
      end
  end.

(** The interface [ApiError]. *)
Record ApiError := mkApiError {
  apiMessage : string;
  apiStatus : option nat;
  apiCode : option string
}.

(** [createApiError(error, defaultMessage)]. *)
Definition createApiError (error : Unknown) (defaultMessage : string)
  : ApiError :=
  let message := getErrorMessage error in
  let message1 :=
    if bool_decide (message = "") then defaultMessage else message in
  match isAxiosError error with
  | Some e => mkApiError message1 (status <$> response e) (code e)
  | None => mkApiError message1 None None
  end.

End error_guards.

(** A navigation that went through the registered router. *)
Definition routed (e : Effect) : Prop :=
  match e with
  | NavigateTo _ target => target = Router
  | _ => True
  end.


(** * Properties *)

(** Reduce field reads of updated states, and nothing else. *)
Ltac state_simpl :=
  cbv beta iota delta
      [tokenManager localStorage navigateFunction isRefreshing failedQueue
       refreshCalls inFlight timers microtasks trace
       withTokenManager withLocalStorage withNavigateFunction
       withIsRefreshing withFailedQueue withRefreshCalls withInFlight
       withTimers withMicrotasks withTrace emit enqueue apiClient
       getAccessToken getRefreshToken].

(** Read the fields of a state given by its constructor. *)
Ltac state_proj :=
  cbn [tokenManager localStorage navigateFunction isRefreshing failedQueue
       refreshCalls inFlight timers microtasks trace].

(** Name the fields of a state. *)
Ltac state_destruct s :=
  destruct s as [tm ls nf ir fq rcs inf tim mt tr];
  try unfold getAccessToken, getRefreshToken in *;
  cbn [tokenManager localStorage navigateFunction isRefreshing failedQueue
       refreshCalls inFlight timers microtasks trace
       getAccessToken getRefreshToken] in *.

(** ** Credential store *)

Section StoreFacts.

Variable env : Env.

Lemma setTokens_tokenManager a r s :
  tokenManager (setTokens env a r s) =
  mkTokenManager (Some a) (Some r) (isInitialized (tokenManager s))
    (initPromise (tokenManager s)).
Proof.
  unfold setTokens, setItem. destruct (hasWindow env); [|done].
  repeat case_match; done.
Qed.

Lemma clearTokens_tokenManager s :
  tokenManager (clearTokens env s) =
  mkTokenManager None None (isInitialized (tokenManager s))
    (initPromise (tokenManager s)).
Proof.
  unfold clearTokens, removeItem. destruct (hasWindow env); [|done].
  repeat case_match; done.
Qed.

Lemma truthy_Some o : truthy o = true -> is_Some o.
Proof. destruct o; [eauto | done]. Qed.

Lemma initialize_pairOk s :
  pairOk (tokenManager s) -> pairOk (tokenManager (initialize env s)).
Proof.
  intros Hok. unfold initialize.
  destruct (isInitialized (tokenManager s) || negb (hasWindow env)); [done|].
  destruct (initPromise (tokenManager s)); [done|].
  unfold _doInitialize, getStoredTokens.
  destruct (hasWindow env); simpl; [|exact Hok].
  destruct (getItemThrows env); simpl; [exact Hok|].
  destruct (truthy (localStorage s !! "accessToken")) eqn:Ha; simpl;
    [|exact Hok].
  destruct (truthy (localStorage s !! "refreshToken")) eqn:Hr; simpl;
    [|exact Hok].
  unfold pairOk; simpl. split; intros _; by apply truthy_Some.
Qed.

Lemma applyOp_pairOk s op :
  pairOk (tokenManager s) -> pairOk (tokenManager (applyOp env s op)).
Proof.
  destruct op as [|a r|]; simpl.
  - apply initialize_pairOk.
  - intros _. rewrite setTokens_tokenManager. unfold pairOk; simpl.
    split; eauto.
  - intros _. rewrite clearTokens_tokenManager. unfold pairOk; simpl.
    split; intros [? ?]; done.
Qed.

Lemma initialize_done s :
  isInitialized (tokenManager s) || negb (hasWindow env) = true ->
  initialize env s = s.
Proof. intros H. unfold initialize. by rewrite H. Qed.

(** The first call, in a browser: one read, and the store is marked. *)
Lemma initialize_first s :
  hasWindow env = true ->
  isInitialized (tokenManager s) = false ->
  initPromise (tokenManager s) = None ->
  isInitialized (tokenManager (initialize env s)) = true /\
  trace (initialize env s) = trace s ++ [StorageRead].
Proof.
  intros Hw Hi Hp. unfold initialize, _doInitialize, getStoredTokens.
  rewrite Hi, Hw, Hp. simpl.
  destruct (getItemThrows env); simpl; [done|].
  by destruct (truthy (localStorage s !! "accessToken")
               && truthy (localStorage s !! "refreshToken")).
Qed.

Lemma initSteps_initialized sched s obs :
  isInitialized (tokenManager s) = true ->
  foldl (initStep env) (s, obs) sched =
  (s, obs ++ map (fun w => (w, (getAccessToken s, getRefreshToken s)))
               (completions sched)).
Proof.
  intros Hi. revert obs. induction sched as [|e sched IH]; intros obs; simpl.
  - by rewrite app_nil_r.
  - destruct e as [w|w]; simpl.
    + rewrite initialize_done; [apply IH | by rewrite Hi].
    + rewrite IH. by rewrite <- app_assoc.
Qed.

End StoreFacts.

Lemma Interleave_Permutation {A} (l1 l2 l : list A) :
  Interleave l1 l2 l -> l ≡ₚ l1 ++ l2.
Proof.
  induction 1 as [|x l1 l2 l _ IH|x l1 l2 l _ IH]; simpl.
  - done.
  - by rewrite IH.
  - rewrite IH. by rewrite Permutation_middle.
Qed.

Lemma completions_Permutation l1 l2 :
  l1 ≡ₚ l2 -> completions l1 ≡ₚ completions l2.
Proof. unfold completions. intros H. by rewrite H. Qed.

Lemma initialize_localStorage env s :
  localStorage (initialize env s) = localStorage s.
Proof.
  unfold initialize.
  destruct (isInitialized (tokenManager s) || negb (hasWindow env)); [done|].
  destruct (initPromise (tokenManager s)); [done|].
  unfold _doInitialize, getStoredTokens.
  destruct (hasWindow env); cbn; [|done].
  destruct (getItemThrows env); cbn; [done|].
  by destruct (truthy (localStorage s !! "accessToken")
               && truthy (localStorage s !! "refreshToken")).
Qed.

Lemma applyOp_storedPairOk env s op :
  storageReliable env ->
  storedPairOk (localStorage s) ->
  storedPairOk (localStorage (applyOp env s op)).
Proof.
  intros [Hset Hrm] Hok. destruct op as [|a r|]; cbn [applyOp].
  - by rewrite initialize_localStorage.
  - unfold setTokens, setItem. destruct (hasWindow env); [|exact Hok].
    cbn [localStorage withTokenManager]. rewrite !Hset.
    cbn [localStorage withLocalStorage]. unfold storedPairOk.
    rewrite lookup_insert_ne by done. rewrite !lookup_insert_eq.
    split; eauto.
  - unfold clearTokens, removeItem. destruct (hasWindow env); [|exact Hok].
    cbn [localStorage withTokenManager]. rewrite !Hrm.
    cbn [localStorage withLocalStorage]. unfold storedPairOk.
    rewrite lookup_delete_eq. rewrite lookup_delete_ne by done.
    rewrite lookup_delete_eq. split; intros [? ?]; done.
Qed.

Lemma applyOps_pairOk env ops : forall s,
  pairOk (tokenManager s) ->
  pairOk (tokenManager (foldl (applyOp env) s ops)).
Proof.
  induction ops as [|op ops IH]; intros s Hs; cbn [foldl]; [done|].
  apply IH. by apply applyOp_pairOk.
Qed.

Lemma applyOps_storedPairOk env ops : forall s,
  storageReliable env ->
  storedPairOk (localStorage s) ->
  storedPairOk (localStorage (foldl (applyOp env) s ops)).
Proof.
  induction ops as [|op ops IH]; intros s Hrel Hs; cbn [foldl]; [done|].
  apply IH; [done|]. by apply applyOp_storedPairOk.
Qed.

(** C8. Whatever the host does to [localStorage], after any sequence of
    [initialize], [setTokens] and [clearTokens] on a new [TokenManager] the
    two getters are both set or both null.  The mirror in [localStorage]
    keeps the same shape as long as it had it at the start and storage does
    not throw; a write that throws is caught and the store goes on in
    memory. *)
Theorem credential_pair_all_or_nothing (env : Env)
    (stored : gmap string string) (ops : list StoreOp) :
  let s := foldl (applyOp env) (initialState stored) ops in
  pairOk (tokenManager s) /\
  (storageReliable env -> storedPairOk stored ->
   storedPairOk (localStorage s)).
Proof.
  split.
  - apply applyOps_pairOk. unfold pairOk; cbn. split; intros [? ?]; done.
  - intros Hrel Hok. by apply applyOps_storedPairOk.
Qed.

(** A login, a reload of the page's store, a logout, on an empty storage
    that never throws. *)
Lemma credential_pair_all_or_nothing_witness :
  let s :=
    foldl (applyOp browser) (initialState ∅)
      [OpSetCredentials "A1" "R1"; OpInitialize; OpClearCredentials] in
  pairOk (tokenManager s) /\
  (storageReliable browser -> storedPairOk ∅ ->
   storedPairOk (localStorage s)).
Proof.
  apply (credential_pair_all_or_nothing browser ∅
           [OpSetCredentials "A1" "R1"; OpInitialize; OpClearCredentials]).
Defined.

(** C7. In a browser, however the two calls of [initialize] and their
    completions interleave, storage is read once, both callers complete and
    both see the pair that one read loaded from storage: the stored pair
    when both values are there and non-empty, else nothing.  The store
    holds that pair. *)
Theorem initialize_twice_reads_once (env : Env)
    (stored : gmap string string) (a b : nat) (sched : list InitEvent) :
  hasWindow env = true ->
  Interleave [InitCall a; InitDone a] [InitCall b; InitDone b] sched ->
  let final := foldl (initStep env) (initialState stored, []) sched in
  let loaded :=
    if getItemThrows env then (None, None)
    else if truthy (stored !! "accessToken")
            && truthy (stored !! "refreshToken")
    then (stored !! "accessToken", stored !! "refreshToken")
    else (None, None) in
  storageReads (trace final.1) = 1 /\
  final.2.*1 ≡ₚ [a; b] /\
  Forall (fun o => o.2 = loaded) final.2 /\
  (getAccessToken final.1, getRefreshToken final.1) = loaded /\
  loaded = loadedPair env (initialState stored).
Proof.
  intros Hw Hil final loaded.
  assert (Hperm := completions_Permutation _ _ (Interleave_Permutation _ _ _ Hil)).
  assert (Hhead : exists w rest, sched = InitCall w :: rest).
  { inversion Hil; subst; eauto. }
  destruct Hhead as (w & rest & ->).
  destruct (initialize_first env (initialState stored) Hw eq_refl eq_refl)
    as [Hinit Htr].
  assert (Hload :
    (getAccessToken (initialize env (initialState stored)),
     getRefreshToken (initialize env (initialState stored))) = loaded).
  { subst loaded. unfold initialize, _doInitialize, getStoredTokens.
    rewrite Hw. cbn.
    destruct (getItemThrows env); cbn; [done|].
    by destruct (truthy (stored !! "accessToken")
                 && truthy (stored !! "refreshToken")). }
  subst final. simpl foldl.
  change (initialize env (initialState stored), [])
    with (initStep env (initialState stored, []) (InitCall w)).
  simpl initStep.
  rewrite (initSteps_initialized env rest _ [] Hinit). simpl.
  split; [|split; [|split; [|split]]].
  - rewrite Htr. done.
  - rewrite map_map. simpl. rewrite map_id. exact Hperm.
  - apply Forall_forall. intros o Ho.
    apply list_elem_of_In, in_map_iff in Ho as (x & <- & _).
    simpl. exact Hload.
  - exact Hload.
  - done.
Qed.

(** The scenario of the specification's property 6, on a store that holds
    a pair. *)
Lemma initialize_twice_reads_once_witness :
  let final :=
    foldl (initStep browser)
      (initialState {["accessToken" := "A1"; "refreshToken" := "R1"]}, [])
      [InitCall 1; InitCall 2; InitDone 1; InitDone 2] in
  storageReads (trace final.1) = 1 /\
  final.2.*1 ≡ₚ [1; 2] /\
  Forall (fun o => o.2 = (Some "A1", Some "R1")) final.2 /\
  (getAccessToken final.1, getRefreshToken final.1) = (Some "A1", Some "R1").
Proof.
  destruct (initialize_twice_reads_once browser
              {["accessToken" := "A1"; "refreshToken" := "R1"]} 1 2
              [InitCall 1; InitCall 2; InitDone 1; InitDone 2])
    as (H1 & H2 & H3 & H4 & _).
  - reflexivity.
  - apply Interleave_left, Interleave_right, Interleave_left, Interleave_right,
      Interleave_nil.
  - split; [exact H1|]. split; [exact H2|]. split; [exact H3|exact H4].
Defined.

(** ** The job queue *)

Section Jobs.

Variable env : Env.

Lemma initialize_withMicrotasks m s :
  initialize env (withMicrotasks m s) = withMicrotasks m (initialize env s).
Proof.
  destruct s as [[a r i p] ls nf ir fq rc inf tim mt tr].
  unfold initialize, _doInitialize, getStoredTokens; simpl.
  repeat (case_match; simpl in *; simplify_eq; try done).
Qed.

Lemma initialize_microtasks s :
  microtasks (initialize env s) = microtasks s.
Proof.
  destruct s as [[a r i p] ls nf ir fq rc inf tim mt tr].
  unfold initialize, _doInitialize, getStoredTokens; simpl.
  repeat (case_match; simpl in *; simplify_eq; try done).
Qed.

Lemma dispatch_withMicrotasks c cfg m s :
  dispatch env c cfg (withMicrotasks m s) = withMicrotasks m (dispatch env c cfg s).
Proof.
  unfold dispatch, requestInterceptor.
  rewrite initialize_withMicrotasks. done.
Qed.

Lemma dispatch_microtasks c cfg s :
  microtasks (dispatch env c cfg s) = microtasks s.
Proof.
  unfold dispatch, requestInterceptor. simpl. apply initialize_microtasks.
Qed.

Lemma jobsWeight_app l1 l2 :
  jobsWeight (l1 ++ l2) = jobsWeight l1 + jobsWeight l2.
Proof. induction l1 as [|m l1 IH]; simpl; [done|]. rewrite IH. lia. Qed.

Lemma runMicrotask_weight m rest s :
  S (jobsWeight (microtasks (runMicrotask env m (withMicrotasks rest s)))) =
  jobWeight m + jobsWeight rest.
Proof.
  destruct m as [c req tok|c err|c cfg]; unfold runMicrotask.
  - simpl. rewrite jobsWeight_app. simpl. lia.
  - done.
  - by rewrite dispatch_microtasks.
Qed.

(** The fuel [drain] gives is enough: no job is left. *)
Lemma runMicrotasks_empties fuel s :
  jobsWeight (microtasks s) <= fuel ->
  microtasks (runMicrotasks env fuel s) = [].
Proof.
  revert s. induction fuel as [|fuel IH]; intros s Hle; simpl.
  - destruct (microtasks s) as [|m rest]; [done|].
    simpl in Hle. destruct m; simpl in Hle; lia.
  - destruct (microtasks s) as [|m rest] eqn:Hm; [done|].
    apply IH. pose proof (runMicrotask_weight m rest s) as Hw.
    simpl in Hle. destruct m; simpl in *; lia.
Qed.

Lemma drain_empties s : microtasks (drain env s) = [].
Proof. by apply runMicrotasks_empties. Qed.

Lemma step_empties s ev : microtasks (step env s ev) = [].
Proof. apply drain_empties. Qed.

Lemma drain_idle s : microtasks s = [] -> drain env s = s.
Proof. intros H. unfold drain. by rewrite H. Qed.

End Jobs.

(** ** Replaying *)

Section Replay.

Variable env : Env.

Lemma nonempty_truthy (a : string) : a <> "" -> truthy (Some a) = true.
Proof. by destruct a. Qed.

Lemma dispatch_ready c cfg s a :
  initDone env s = true ->
  getAccessToken s = Some a ->
  a <> "" ->
  dispatch env c cfg s =
  emit (Send c (withAuthorization (bearer a) cfg))
    (withInFlight (<[c:=withAuthorization (bearer a) cfg]> (inFlight s)) s).
Proof.
  intros Hd Ha Hne. unfold dispatch, requestInterceptor.
  rewrite initialize_done by exact Hd.
  rewrite Ha, nonempty_truthy by exact Hne. done.
Qed.

(** Interceptor jobs alone: each sends its request with the held token. *)
Lemma run_interceptors a l : forall fuel s,
  microtasks s = map interceptorOf l ->
  initDone env s = true ->
  getAccessToken s = Some a ->
  a <> "" ->
  length l <= fuel ->
  runMicrotasks env fuel s =
  withMicrotasks []
    (withTrace (trace s ++ map sendOf (map (attach a) l))
       (withInFlight (insertAll (map (attach a) l) (inFlight s)) s)).
Proof.
  induction l as [|[c cfg] l IH]; intros fuel s Hm Hd Ha Hne Hlen.
  - destruct s as [tm ls nf ir fq rc inf tim mt tr]. simpl in *. subst mt.
    rewrite app_nil_r. by destruct fuel.
  - destruct fuel as [|fuel]; [simpl in Hlen; lia|].
    simpl in Hlen. simpl runMicrotasks. rewrite Hm. simpl map.
    unfold interceptorOf at 1. simpl fst. simpl snd.
    unfold runMicrotask.
    rewrite dispatch_withMicrotasks.
    rewrite (dispatch_ready c cfg s a Hd Ha Hne).
    rewrite IH; [| done | exact Hd | exact Ha | exact Hne | lia].
    destruct s as [tm ls nf ir fq rc inf tim mt tr]. simpl.
    unfold withMicrotasks, withTrace, withInFlight; simpl.
    by rewrite <- app_assoc.
Qed.

(** The [then] reactions of resolved entries: each calls [apiClient], which
    queues its interceptor job behind whatever is already waiting. *)
Lemma run_replays a q : forall fuel rest s,
  microtasks s =
    map (fun e => ReplayThen (entryCall e) (entryRequest e) (Some a)) q
    ++ rest ->
  a <> "" ->
  runMicrotasks env (length q + fuel) s =
  runMicrotasks env fuel
    (withMicrotasks
       (rest ++ map interceptorOf (map (attach a) (map entryPair q)))
       (withTrace
          (trace s ++ map invokeOf (map (attach a) (map entryPair q))) s)).
Proof.
  induction q as [|e q IH]; intros fuel rest s Hm Hne.
  - destruct s as [tm ls nf ir fq rc inf tim mt tr]. simpl in *. subst mt.
    by rewrite !app_nil_r.
  - simpl length. simpl plus. simpl runMicrotasks. rewrite Hm. simpl.
    unfold replayThen. rewrite nonempty_truthy by exact Hne. simpl default.
    rewrite (IH fuel (rest ++ [interceptorOf (attach a (entryPair e))]));
      [| simpl; by rewrite <- app_assoc | exact Hne].
    destruct s as [tm ls nf ir fq rc inf tim mt tr]. simpl.
    unfold withMicrotasks, withTrace; simpl.
    by rewrite <- !app_assoc.
Qed.

Lemma processQueue_resolve token s :
  processQueue None token s =
  withFailedQueue []
    (withMicrotasks
       (microtasks s
        ++ map (fun e => ReplayThen (entryCall e) (entryRequest e) token)
             (failedQueue s)) s).
Proof.
  unfold processQueue.
  assert (H : forall q s0,
    foldl (fun acc e =>
             enqueue (ReplayThen (entryCall e) (entryRequest e) token) acc)
      s0 q =
    withMicrotasks
      (microtasks s0
       ++ map (fun e => ReplayThen (entryCall e) (entryRequest e) token) q)
      s0).
  { induction q as [|e q IH]; intros s0; simpl.
    - destruct s0; simpl. by rewrite app_nil_r.
    - rewrite IH. destruct s0; simpl. unfold withMicrotasks; simpl.
      by rewrite <- app_assoc. }
  rewrite H. done.
Qed.

Lemma processQueue_reject err s :
  processQueue (Some err) None s =
  withFailedQueue []
    (withMicrotasks
       (microtasks s
        ++ map (fun e => ReplayCatch (entryCall e) err) (failedQueue s)) s).
Proof.
  unfold processQueue.
  assert (H : forall q s0,
    foldl (fun acc e => enqueue (ReplayCatch (entryCall e) err) acc) s0 q =
    withMicrotasks
      (microtasks s0 ++ map (fun e => ReplayCatch (entryCall e) err) q) s0).
  { induction q as [|e q IH]; intros s0; simpl.
    - destruct s0; simpl. by rewrite app_nil_r.
    - rewrite IH. destruct s0; simpl. unfold withMicrotasks; simpl.
      by rewrite <- app_assoc. }
  rewrite H. done.
Qed.

(** The [catch] reactions of rejected entries. *)
Lemma run_rejections err q : forall fuel s,
  microtasks s = map (fun e => ReplayCatch (entryCall e) err) q ->
  length q <= fuel ->
  runMicrotasks env fuel s =
  withMicrotasks []
    (withTrace
       (trace s ++ map (fun e => Rejected (entryCall e) err) q) s).
Proof.
  induction q as [|e q IH]; intros fuel s Hm Hlen.
  - destruct s as [tm ls nf ir fq rc inf tim mt tr]. simpl in *. subst mt.
    rewrite app_nil_r. by destruct fuel.
  - destruct fuel as [|fuel]; [simpl in Hlen; lia|].
    simpl in Hlen. simpl runMicrotasks. rewrite Hm. simpl.
    rewrite IH; [| done | lia].
    destruct s as [tm ls nf ir fq rc inf tim mt tr]. simpl.
    unfold withMicrotasks, withTrace; simpl.
    by rewrite <- app_assoc.
Qed.

End Replay.

(** ** One step of the pipeline, case by case *)

Section Steps.

Variable env : Env.

Lemma setTokens_frame a r s :
  setTokens env a r s =
  withLocalStorage (localStorage (setTokens env a r s))
    (withTokenManager
       (mkTokenManager (Some a) (Some r) (isInitialized (tokenManager s))
          (initPromise (tokenManager s))) s).
Proof.
  destruct s as [tm ls nf ir fq rc inf tim mt tr].
  unfold setTokens, setItem; simpl.
  repeat (case_match; simpl; try done).
Qed.

Lemma clearTokens_frame s :
  clearTokens env s =
  withLocalStorage (localStorage (clearTokens env s))
    (withTokenManager
       (mkTokenManager None None (isInitialized (tokenManager s))
          (initPromise (tokenManager s))) s).
Proof.
  destruct s as [tm ls nf ir fq rc inf tim mt tr].
  unfold clearTokens, removeItem; simpl.
  repeat (case_match; simpl; try done).
Qed.

Lemma navigateTo_emit path s :
  navigateTo env path s = emit (NavigateTo path (navTarget env s)) s.
Proof.
  unfold navigateTo, navTarget.
  destruct (navigateFunction s); [done|]. by destruct (hasWindow env).
Qed.

Lemma jobsWeight_replays a q :
  jobsWeight
    (map (fun e => ReplayThen (entryCall e) (entryRequest e) a) q) =
  length q + length q.
Proof. induction q as [|e q IH]; simpl; [done|]. rewrite IH. lia. Qed.

Lemma jobsWeight_rejections err q :
  jobsWeight (map (fun e => ReplayCatch (entryCall e) err) q) = length q.
Proof. induction q as [|e q IH]; simpl; [done|]. by rewrite IH. Qed.

Lemma attach_idem a l : map (attach a) (map (attach a) l) = map (attach a) l.
Proof. rewrite map_map. apply map_ext. by intros [c cfg]. Qed.

Lemma setTokens_storage a r s1 s2 :
  localStorage s1 = localStorage s2 ->
  localStorage (setTokens env a r s1) = localStorage (setTokens env a r s2).
Proof.
  destruct s1, s2. unfold setTokens, setItem. cbn. intros ->.
  destruct (hasWindow env); [|done].
  destruct (setItemThrows env _ "accessToken" a); [done|].
  by destruct (setItemThrows env _ "refreshToken" r).
Qed.

Lemma clearTokens_storage s1 s2 :
  localStorage s1 = localStorage s2 ->
  localStorage (clearTokens env s1) = localStorage (clearTokens env s2).
Proof.
  destruct s1, s2. unfold clearTokens, removeItem. cbn. intros ->.
  destruct (hasWindow env); [|done].
  destruct (removeItemThrows env _ "accessToken"); [done|].
  by destruct (removeItemThrows env _ "refreshToken").
Qed.

(** The refresh call answers with a new pair. *)
Lemma step_refresh_ok s rc rest a r :
  takeRefresh (refreshCaller rc) (refreshCalls s) = Some (rc, rest) ->
  microtasks s = [] ->
  initDone env s = true ->
  a <> "" ->
  let replays :=
    map (attach a)
      ((refreshCaller rc, refreshRequest rc)
       :: map entryPair (failedQueue s)) in
  step env s (RefreshOk (refreshCaller rc) a r) =
  mkState
    (mkTokenManager (Some a) (Some r) (isInitialized (tokenManager s))
       (initPromise (tokenManager s)))
    (localStorage (setTokens env a r s)) (navigateFunction s) false [] rest
    (insertAll replays (inFlight s)) (timers s) []
    (trace s ++ map invokeOf replays ++ map sendOf replays).
Proof.
  intros Htake Hm Hd Hne replays.
  unfold step, handle. rewrite Htake. unfold refreshSucceeded.
  rewrite setTokens_frame, processQueue_resolve.
  rewrite (setTokens_storage a r (withRefreshCalls rest s) s) by done.
  generalize (localStorage (setTokens env a r s)). intros ls1.
  destruct s as [tm ls nf ir fq rcs inf tim mt tr].
  simpl in Hm. subst mt. simpl in Htake, Hd.
  unfold drain. simpl microtasks.
  rewrite jobsWeight_app, jobsWeight_replays. simpl jobsWeight.
  rewrite <- Nat.add_assoc.
  erewrite run_replays; [| simpl; reflexivity | exact Hne].
  erewrite (run_interceptors env a
              ((refreshCaller rc,
                withAuthorization (bearer a) (refreshRequest rc))
               :: map (attach a) (map entryPair fq)));
    [| done | exact Hd | done | exact Hne | simpl; rewrite !length_map; lia].
  subst replays. state_simpl.
  assert (E : map (attach a)
                ((refreshCaller rc,
                  withAuthorization (bearer a) (refreshRequest rc))
                 :: map (attach a) (map entryPair fq)) =
              map (attach a)
                ((refreshCaller rc, refreshRequest rc) :: map entryPair fq)).
  { cbn [map]. by rewrite attach_idem. }
  rewrite E. f_equal. cbn [map]. rewrite <- !app_assoc. done.
Qed.

(** The refresh call fails. *)
Lemma step_refresh_error s rc rest e :
  takeRefresh (refreshCaller rc) (refreshCalls s) = Some (rc, rest) ->
  microtasks s = [] ->
  step env s (RefreshError (refreshCaller rc) e) =
  mkState
    (mkTokenManager None None (isInitialized (tokenManager s))
       (initPromise (tokenManager s)))
    (localStorage (clearTokens env s)) (navigateFunction s) false [] rest
    (inFlight s) (timers s) []
    (trace s
     ++ [NavigateTo (unauthorizedRedirect env) (navTarget env s);
         Rejected (refreshCaller rc) e]
     ++ map (fun q => Rejected (entryCall q) (queueError e)) (failedQueue s)).
Proof.
  intros Htake Hm.
  unfold step, handle. rewrite Htake. unfold refreshFailed, navigateToLogin.
  rewrite processQueue_reject, clearTokens_frame, navigateTo_emit.
  rewrite (clearTokens_storage (withFailedQueue _ _) s) by done.
  generalize (localStorage (clearTokens env s)). intros ls1.
  destruct s as [tm ls nf ir fq rcs inf tim mt tr].
  simpl in Hm. subst mt. simpl in Htake.
  unfold drain. simpl microtasks. rewrite jobsWeight_rejections.
  erewrite run_rejections; [| simpl; reflexivity | done].
  simpl. unfold withMicrotasks, withTrace, queueError, navTarget; simpl.
  f_equal. rewrite <- !app_assoc. done.
Qed.

(** A 401 for a request not yet marked, a refresh token held, no refresh
    under way: the flag is set and the refresh call posted. *)
Lemma step_unauthorized_first s c cfg tok :
  inFlight s !! c = Some cfg ->
  _retry cfg = false ->
  getRefreshToken s = Some tok ->
  tok <> "" ->
  isRefreshing s = false ->
  microtasks s = [] ->
  step env s (ResponseError c (Some 401)) =
  mkState (tokenManager s) (localStorage s) (navigateFunction s) true
    (failedQueue s)
    (refreshCalls s ++ [mkRefreshCall c (markRetry cfg) tok])
    (delete c (inFlight s)) (timers s) []
    (trace s ++ [RawPost "/api/auth/refresh" tok None]).
Proof.
  intros Hin Hr Htok Hne Hflag Hm.
  state_destruct s. subst.
  unfold step, handle. state_simpl. rewrite Hin. unfold onRejected.
  cbn [config response]. rewrite bool_decide_eq_true_2 by done.
  rewrite Hr. cbn [negb andb].
  state_simpl.
  rewrite Htok, nonempty_truthy by exact Hne. cbn [negb default].
  rewrite drain_idle by done.
  state_simpl. done.
Qed.

(** The same while a refresh is under way: the request joins the queue. *)
Lemma step_unauthorized_queued s c cfg :
  inFlight s !! c = Some cfg ->
  _retry cfg = false ->
  truthy (getRefreshToken s) = true ->
  isRefreshing s = true ->
  microtasks s = [] ->
  step env s (ResponseError c (Some 401)) =
  mkState (tokenManager s) (localStorage s) (navigateFunction s) true
    (failedQueue s ++ [mkEntry c cfg]) (refreshCalls s)
    (delete c (inFlight s)) (timers s) [] (trace s).
Proof.
  intros Hin Hr Htok Hflag Hm.
  state_destruct s. subst.
  unfold step, handle. state_simpl. rewrite Hin. unfold onRejected.
  cbn [config response]. rewrite bool_decide_eq_true_2 by done.
  rewrite Hr. cbn [negb andb].
  state_simpl.
  rewrite Htok. cbn [negb]. rewrite drain_idle by done.
  state_simpl. done.
Qed.

(** The same with no refresh token: clear, navigate, reject. *)
Lemma step_unauthorized_no_token s c cfg :
  inFlight s !! c = Some cfg ->
  _retry cfg = false ->
  truthy (getRefreshToken s) = false ->
  microtasks s = [] ->
  step env s (ResponseError c (Some 401)) =
  mkState
    (mkTokenManager None None (isInitialized (tokenManager s))
       (initPromise (tokenManager s)))
    (localStorage (clearTokens env s)) (navigateFunction s) (isRefreshing s)
    (failedQueue s) (refreshCalls s) (delete c (inFlight s)) (timers s) []
    (trace s
     ++ [NavigateTo (unauthorizedRedirect env) (navTarget env s);
         Rejected c (AxiosErr (unauthorized cfg))]).
Proof.
  intros Hin Hr Htok Hm.
  state_destruct s. subst.
  unfold step, handle. state_simpl. rewrite Hin. unfold onRejected.
  cbn [config response]. rewrite bool_decide_eq_true_2 by done.
  rewrite Hr. cbn [negb andb].
  state_simpl.
  rewrite Htok. cbn [negb].
  unfold navigateToLogin. rewrite navigateTo_emit, clearTokens_frame.
  rewrite drain_idle by done.
  match goal with
  | |- context [localStorage (clearTokens env ?s1)] =>
      rewrite (clearTokens_storage s1
                 (mkState tm ls nf ir fq rcs inf tim [] tr)) by done
  end.
  unfold navTarget, unauthorized. state_simpl.
  rewrite <- app_assoc. done.
Qed.

(** A 401 for a request already marked [_retry]: rejected as it is. *)
Lemma step_unauthorized_retried s c cfg :
  inFlight s !! c = Some cfg ->
  _retry cfg = true ->
  microtasks s = [] ->
  step env s (ResponseError c (Some 401)) =
  mkState (tokenManager s) (localStorage s) (navigateFunction s)
    (isRefreshing s) (failedQueue s) (refreshCalls s)
    (delete c (inFlight s)) (timers s) []
    (trace s ++ [Rejected c (AxiosErr (unauthorized cfg))]).
Proof.
  intros Hin Hr Hm.
  state_destruct s. subst.
  unfold step, handle. state_simpl. rewrite Hin. unfold onRejected.
  cbn [config response]. rewrite bool_decide_eq_true_2 by done.
  rewrite Hr. cbn [negb andb].
  rewrite bool_decide_eq_false_2 by done. cbn [andb].
  rewrite drain_idle by done.
  unfold unauthorized. state_simpl. done.
Qed.

(** No response at all, request not yet marked [_retryCount]: a timer. *)
Lemma step_network_error s c cfg :
  inFlight s !! c = Some cfg ->
  truthyCount (_retryCount cfg) = false ->
  microtasks s = [] ->
  step env s (ResponseError c None) =
  mkState (tokenManager s) (localStorage s) (navigateFunction s)
    (isRefreshing s) (failedQueue s) (refreshCalls s)
    (delete c (inFlight s))
    (<[c:=markRetryCount cfg]> (timers s)) []
    (trace s ++ [SetTimeout 1000 c]).
Proof.
  intros Hin Hr Hm.
  state_destruct s. subst.
  unfold step, handle. state_simpl. rewrite Hin. unfold onRejected.
  cbn [config response]. rewrite bool_decide_eq_false_2 by done.
  cbn [andb]. rewrite bool_decide_eq_true_2 by done.
  rewrite Hr. cbn [negb andb].
  rewrite drain_idle by done.
  state_simpl. done.
Qed.

(** No response at all, request already marked: rejected as it is. *)
Lemma step_network_error_retried s c cfg :
  inFlight s !! c = Some cfg ->
  truthyCount (_retryCount cfg) = true ->
  microtasks s = [] ->
  step env s (ResponseError c None) =
  mkState (tokenManager s) (localStorage s) (navigateFunction s)
    (isRefreshing s) (failedQueue s) (refreshCalls s)
    (delete c (inFlight s)) (timers s) []
    (trace s ++ [Rejected c (AxiosErr (mkAxiosError (Some cfg) None))]).
Proof.
  intros Hin Hr Hm.
  state_destruct s. subst.
  unfold step, handle. state_simpl. rewrite Hin. unfold onRejected.
  cbn [config response]. rewrite bool_decide_eq_false_2 by done.
  cbn [andb]. rewrite bool_decide_eq_true_2 by done.
  rewrite Hr. cbn [negb andb].
  rewrite drain_idle by done.
  state_simpl. done.
Qed.

(** Any other status: rejected as it is. *)
Lemma step_http_error s c cfg st :
  inFlight s !! c = Some cfg ->
  st <> 401 ->
  microtasks s = [] ->
  step env s (ResponseError c (Some st)) =
  mkState (tokenManager s) (localStorage s) (navigateFunction s)
    (isRefreshing s) (failedQueue s) (refreshCalls s)
    (delete c (inFlight s)) (timers s) []
    (trace s ++ [Rejected c (AxiosErr (mkAxiosError (Some cfg) (Some st)))]).
Proof.
  intros Hin Hst Hm.
  state_destruct s. subst.
  unfold step, handle. state_simpl. rewrite Hin. unfold onRejected.
  cbn [config response].
  rewrite bool_decide_eq_false_2 by (intros [= ?]; done).
  cbn [andb]. rewrite bool_decide_eq_false_2 by done. cbn [andb].
  rewrite drain_idle by done.
  state_simpl. done.
Qed.


(** A single interceptor job. *)
Lemma drain_dispatch c cfg s :
  microtasks s = [] ->
  drain env (enqueue (Interceptor c cfg) s) = dispatch env c cfg s.
Proof.
  intros Hm.
  assert (Hd : microtasks (dispatch env c cfg s) = [])
    by (by rewrite dispatch_microtasks).
  state_destruct s. subst. unfold drain. state_simpl.
  cbn [app jobsWeight foldr jobWeight Nat.add runMicrotasks].
  state_simpl. cbn [runMicrotask].
  match goal with
  | |- context [dispatch env c cfg ?s1] =>
      change s1 with (withMicrotasks [] (mkState tm ls nf ir fq rcs inf tim [] tr))
  end.
  rewrite dispatch_withMicrotasks.
  destruct (dispatch env c cfg _) as [tm1 ls1 nf1 ir1 fq1 rc1 inf1 tim1 mt1 tr1].
  cbn [microtasks] in Hd. subst mt1. done.
Qed.

(** The retry timer fires: the marked request goes through [apiClient]. *)
Lemma step_timer s c cfg :
  timers s !! c = Some cfg ->
  microtasks s = [] ->
  step env s (TimerFired c) =
  dispatch env c cfg
    (emit (Invoke c cfg) (withTimers (delete c (timers s)) s)).
Proof.
  intros Ht Hm. unfold step, handle. rewrite Ht. unfold apiClient.
  rewrite drain_dispatch; [done|].
  by destruct s.
Qed.

(** Jobs never touch the coordinator and never post a refresh. *)
Lemma initialize_coordinator s :
  coordinator (initialize env s) = coordinator s.
Proof.
  unfold initialize.
  destruct (isInitialized (tokenManager s) || negb (hasWindow env)); [done|].
  destruct (initPromise (tokenManager s)); [done|].
  unfold _doInitialize, getStoredTokens.
  destruct (hasWindow env); simpl; [|done].
  assert (Hread : coordinator (emit StorageRead s) = coordinator s).
  { unfold coordinator, refreshPosts; simpl. rewrite omap_app. simpl.
    by rewrite app_nil_r. }
  destruct (getItemThrows env); simpl; [exact Hread|].
  destruct (truthy (localStorage s !! "accessToken")
            && truthy (localStorage s !! "refreshToken")); exact Hread.
Qed.

Lemma emit_coordinator e s :
  (forall u b h, e <> RawPost u b h) ->
  coordinator (emit e s) = coordinator s.
Proof.
  intros He. unfold coordinator, refreshPosts; simpl. rewrite omap_app.
  destruct e; simpl; rewrite ?app_nil_r; try done.
  by destruct (He url0 body auth).
Qed.

Lemma runMicrotask_coordinator m s :
  coordinator (runMicrotask env m s) = coordinator s.
Proof.
  destruct m as [c req tok|c err|c cfg]; unfold runMicrotask.
  - unfold replayThen, apiClient, enqueue.
    change (coordinator (withMicrotasks ?m ?s0)) with (coordinator s0).
    by rewrite emit_coordinator.
  - by rewrite emit_coordinator.
  - unfold dispatch, requestInterceptor.
    rewrite emit_coordinator by done.
    change (coordinator (withInFlight ?m ?s0)) with (coordinator s0).
    apply initialize_coordinator.
Qed.

Lemma runMicrotasks_coordinator fuel s :
  coordinator (runMicrotasks env fuel s) = coordinator s.
Proof.
  revert s. induction fuel as [|fuel IH]; intros s; simpl; [done|].
  destruct (microtasks s) as [|m rest]; [done|].
  rewrite IH, runMicrotask_coordinator. done.
Qed.

Lemma step_coordinator s ev :
  coordinator (step env s ev) = coordinator (handle env ev s).
Proof. apply runMicrotasks_coordinator. Qed.

Lemma setTokens_coordinator a r s :
  coordinator (setTokens env a r s) = coordinator s.
Proof. by rewrite setTokens_frame. Qed.

Lemma clearTokens_coordinator s :
  coordinator (clearTokens env s) = coordinator s.
Proof. by rewrite clearTokens_frame. Qed.

(** However the refresh call ends, the flag is cleared, the queue is
    emptied and no refresh call is posted. *)
Lemma settle_coordinator s rc rest o :
  takeRefresh (refreshCaller rc) (refreshCalls s) = Some (rc, rest) ->
  coordinator (step env s (settle (refreshCaller rc) o)) =
  (false, [], rest, refreshPosts (trace s)).
Proof.
  intros Htake. rewrite step_coordinator.
  destruct o as [a r|e]; unfold settle, handle; rewrite Htake.
  - unfold refreshSucceeded. rewrite processQueue_resolve.
    unfold apiClient, enqueue.
    change (coordinator (withIsRefreshing false (withMicrotasks ?m ?s0)))
      with (coordinator (withIsRefreshing false s0)).
    transitivity
      (coordinator (withIsRefreshing false (withFailedQueue []
         (setTokens env a r (withRefreshCalls rest s))))).
    { unfold coordinator, refreshPosts; simpl. rewrite omap_app. simpl.
      by rewrite app_nil_r. }
    rewrite setTokens_frame. reflexivity.
  - unfold refreshFailed, navigateToLogin.
    rewrite processQueue_reject, navigateTo_emit.
    transitivity
      (coordinator (withIsRefreshing false (withFailedQueue []
         (clearTokens env (withRefreshCalls rest s))))).
    { rewrite (clearTokens_frame (withFailedQueue _ _)).
      rewrite (clearTokens_frame (withRefreshCalls _ _)).
      unfold coordinator, refreshPosts; simpl. rewrite !omap_app. simpl.
      by rewrite !app_nil_r. }
    rewrite clearTokens_frame. reflexivity.
Qed.

End Steps.

(** ** Maps of requests in flight *)

Lemma insertAll_other l : forall (m : gmap CallId Config) c,
  c ∉ map fst l -> insertAll l m !! c = m !! c.
Proof.
  induction l as [|[c0 cfg0] l IH]; intros m c Hc; [done|].
  cbn [map fst] in Hc. apply not_elem_of_cons in Hc as [Hne Hc].
  cbn [insertAll foldl fst snd]. fold (insertAll l (<[c0:=cfg0]> m)).
  rewrite IH by exact Hc. by rewrite lookup_insert_ne.
Qed.

Lemma insertAll_lookup l : forall (m : gmap CallId Config) c cfg,
  NoDup (map fst l) -> (c, cfg) ∈ l -> insertAll l m !! c = Some cfg.
Proof.
  induction l as [|[c0 cfg0] l IH]; intros m c cfg Hnd Hin.
  - by apply elem_of_nil in Hin.
  - cbn [map fst] in Hnd. apply NoDup_cons in Hnd as [Hc0 Hnd].
    cbn [insertAll foldl fst snd]. fold (insertAll l (<[c0:=cfg0]> m)).
    apply elem_of_cons in Hin as [[= -> ->]|Hin].
    + rewrite insertAll_other by exact Hc0. by rewrite lookup_insert_eq.
    + by apply IH.
Qed.

Lemma effectsOf_app env s ev new :
  trace (step env s ev) = trace s ++ new -> effectsOf env s ev = new.
Proof. intros H. unfold effectsOf. rewrite H. apply drop_app_length. Qed.

(** ** The refresh coordinator *)

Section Coordinator.

Variable env : Env.

Lemma run_cons s ev evs : run env s (ev :: evs) = run env (step env s ev) evs.
Proof. done. Qed.

(** 401 answers while a refresh is under way only lengthen the queue. *)
Lemma run_unauthorized_queued others : forall s,
  isRefreshing s = true ->
  truthy (getRefreshToken s) = true ->
  microtasks s = [] ->
  NoDup (map fst others) ->
  Forall (fun p => inFlight s !! p.1 = Some p.2 /\ _retry p.2 = false)
    others ->
  run env s (map unauthorizedAnswer others) =
  mkState (tokenManager s) (localStorage s) (navigateFunction s) true
    (failedQueue s ++ map entryOf others) (refreshCalls s)
    (deleteAll (map fst others) (inFlight s)) (timers s) [] (trace s).
Proof.
  induction others as [|[c cfg] others IH]; intros s Hflag Htok Hm Hnd Hall.
  - state_destruct s. subst. cbn. by rewrite app_nil_r.
  - cbn [map fst] in Hnd. apply NoDup_cons in Hnd as [Hc Hnd].
    apply Forall_cons in Hall as [[Hin Hr] Hall]. cbn [fst snd] in Hin, Hr.
    cbn [map]. rewrite run_cons. unfold unauthorizedAnswer at 1. cbn [fst].
    rewrite (step_unauthorized_queued env s c cfg Hin Hr Htok Hflag Hm).
    rewrite IH; clear IH.
    + state_simpl. cbn [entryOf fst snd map deleteAll foldl].
      by rewrite <- app_assoc.
    + done.
    + exact Htok.
    + done.
    + exact Hnd.
    + state_simpl. apply Forall_forall. intros [c1 cfg1] Hin1.
      rewrite Forall_forall in Hall. destruct (Hall _ Hin1) as [H1 H2].
      cbn [fst snd] in *. split; [|exact H2].
      rewrite lookup_delete_ne; [exact H1|].
      intros ->. apply Hc. apply list_elem_of_In, in_map_iff.
      exists (c1, cfg1). split; [done|]. by apply list_elem_of_In.
Qed.

(** C1. [first] and [others] are requests in flight, none marked [_retry];
    a refresh token is held and no refresh is under way.  All of them are
    answered 401, then the refresh call ends, well or badly.  The first 401
    sets the flag and posts the one refresh call; each later 401 only joins
    the queue; when the call has ended the flag is clear again, and one
    refresh call has been posted in all. *)
Theorem single_refresh_for_concurrent_failures
    (s : State) (first : CallId * Config) (others : list (CallId * Config))
    (tok : string) (outcome : RefreshOutcome) :
  1 <= length others ->
  NoDup (map fst (first :: others)) ->
  Forall (fun p => inFlight s !! p.1 = Some p.2 /\ _retry p.2 = false)
    (first :: others) ->
  getRefreshToken s = Some tok ->
  tok <> "" ->
  isRefreshing s = false ->
  failedQueue s = [] ->
  refreshCalls s = [] ->
  microtasks s = [] ->
  let call := mkRefreshCall first.1 (markRetry first.2) tok in
  let s1 := step env s (unauthorizedAnswer first) in
  let sN := run env s1 (map unauthorizedAnswer others) in
  let sF := step env sN (settle first.1 outcome) in
  coordinator s1 = (true, [], [call], refreshPosts (trace s) ++ [tok]) /\
  coordinator sN =
    (true, map entryOf others, [call], refreshPosts (trace s) ++ [tok]) /\
  tokenManager sN = tokenManager s /\
  coordinator sF = (false, [], [], refreshPosts (trace s) ++ [tok]).
Proof.
  intros _ Hnd Hall Htok Hne Hflag Hq Hrc Hm call s1 sN sF.
  destruct first as [c cfg]. cbn [fst snd] in *.
  cbn [map fst] in Hnd. apply NoDup_cons in Hnd as [Hc Hnd].
  apply Forall_cons in Hall as [[Hin Hr] Hall]. cbn [fst snd] in Hin, Hr.
  assert (E1 : s1 =
    mkState (tokenManager s) (localStorage s) (navigateFunction s) true
      [] [call] (delete c (inFlight s)) (timers s) []
      (trace s ++ [RawPost "/api/auth/refresh" tok None])).
  { subst s1. unfold unauthorizedAnswer. cbn [fst].
    rewrite (step_unauthorized_first env s c cfg tok Hin Hr Htok Hne Hflag Hm).
    by rewrite Hq, Hrc. }
  assert (Hposts : refreshPosts (trace s1) = refreshPosts (trace s) ++ [tok]).
  { rewrite E1. state_proj. unfold refreshPosts. by rewrite omap_app. }
  assert (EN : sN =
    mkState (tokenManager s) (localStorage s) (navigateFunction s) true
      (map entryOf others) [call]
      (deleteAll (map fst others) (delete c (inFlight s))) (timers s) []
      (trace s1)).
  { subst sN. rewrite run_unauthorized_queued.
    - rewrite E1. state_proj. done.
    - by rewrite E1.
    - rewrite E1. unfold getRefreshToken in *. state_proj.
      rewrite Htok. by apply nonempty_truthy.
    - by rewrite E1.
    - exact Hnd.
    - rewrite E1. state_proj. apply Forall_forall. intros [c1 cfg1] Hin1.
      rewrite Forall_forall in Hall. destruct (Hall _ Hin1) as [H1 H2].
      cbn [fst snd] in *. split; [|exact H2].
      rewrite lookup_delete_ne; [exact H1|].
      intros ->. apply Hc. apply list_elem_of_In, in_map_iff.
      exists (c1, cfg1). split; [done|]. by apply list_elem_of_In. }
  split; [|split; [|split]].
  - unfold coordinator. rewrite Hposts. by rewrite E1.
  - unfold coordinator. rewrite EN. state_proj. by rewrite Hposts.
  - by rewrite EN.
  - subst sF.
    pose proof (settle_coordinator env sN call [] outcome) as Hs.
    subst call. cbn [refreshCaller] in Hs. rewrite Hs.
    + rewrite EN. state_proj. by rewrite Hposts.
    + rewrite EN. state_proj. cbn [takeRefresh refreshCaller].
      by rewrite bool_decide_eq_true_2.
Qed.

End Coordinator.

(** ** Reading traces *)

Lemma invocations_app tr1 tr2 :
  invocations (tr1 ++ tr2) = invocations tr1 ++ invocations tr2.
Proof. apply omap_app. Qed.

Lemma sends_app tr1 tr2 : sends (tr1 ++ tr2) = sends tr1 ++ sends tr2.
Proof. apply omap_app. Qed.

Lemma rejections_app tr1 tr2 :
  rejections (tr1 ++ tr2) = rejections tr1 ++ rejections tr2.
Proof. apply omap_app. Qed.

Lemma navigations_app tr1 tr2 :
  navigations (tr1 ++ tr2) = navigations tr1 ++ navigations tr2.
Proof. apply omap_app. Qed.

Lemma refreshPosts_app tr1 tr2 :
  refreshPosts (tr1 ++ tr2) = refreshPosts tr1 ++ refreshPosts tr2.
Proof. apply omap_app. Qed.

Lemma invocations_invokes l : invocations (map invokeOf l) = map fst l.
Proof. induction l as [|[c cfg] l IH]; [done|]. cbn. by rewrite <- IH. Qed.

Lemma invocations_sends l : invocations (map sendOf l) = [].
Proof. induction l as [|[c cfg] l IH]; [done|]. cbn. exact IH. Qed.

Lemma sends_invokes l : sends (map invokeOf l) = [].
Proof. induction l as [|[c cfg] l IH]; [done|]. cbn. exact IH. Qed.

Lemma sends_sends l : sends (map sendOf l) = l.
Proof. induction l as [|[c cfg] l IH]; [done|]. cbn. by rewrite <- IH at 2. Qed.

(** ** After the refresh call has ended *)

Section Settled.

Variable env : Env.

Lemma take_single t req body :
  takeRefresh t [mkRefreshCall t req body] =
  Some (mkRefreshCall t req body, []).
Proof. cbn [takeRefresh refreshCaller]. by rewrite bool_decide_eq_true_2. Qed.

Lemma setTokens_stores a r s :
  hasWindow env = true ->
  (forall l k v, setItemThrows env l k v = false) ->
  localStorage (setTokens env a r s) !! "accessToken" = Some a /\
  localStorage (setTokens env a r s) !! "refreshToken" = Some r.
Proof.
  intros Hw Hset. unfold setTokens, setItem. rewrite Hw.
  cbn [localStorage withTokenManager]. rewrite !Hset.
  cbn [localStorage withLocalStorage]. split.
  - rewrite lookup_insert_ne by done. apply lookup_insert_eq.
  - apply lookup_insert_eq.
Qed.




(** C5, as the code has it.  When the refresh call has answered, the
    triggering call is started again first, by the interceptor itself; the
    queued calls follow, in queue order, when their [then] callbacks run.
    The transport sees them in the same order. *)
Theorem replay_starts_with_trigger
    (s : State) (t : CallId) (treq : Config) (body a r : string) :
  refreshCalls s = [mkRefreshCall t treq body] ->
  microtasks s = [] ->
  initDone env s = true ->
  a <> "" ->
  invocations (effectsOf env s (RefreshOk t a r)) =
    t :: map entryCall (failedQueue s)
  /\ map fst (sends (effectsOf env s (RefreshOk t a r))) =
    t :: map entryCall (failedQueue s).
Proof.
  intros Hrc Hm Hd Hne.
  pose proof (step_refresh_ok env s (mkRefreshCall t treq body) [] a r) as E.
  cbn [refreshCaller refreshRequest] in E.
  rewrite Hrc, take_single in E. specialize (E eq_refl Hm Hd Hne).
  cbv zeta in E.
  rewrite (effectsOf_app env s _ _ (f_equal trace E)).
  assert (Hids : forall l, map fst (map (attach a) l) = map fst l).
  { intros l. rewrite map_map. by apply map_ext. }
  rewrite invocations_app, sends_app.
  rewrite invocations_invokes, invocations_sends, sends_invokes, sends_sends.
  rewrite app_nil_r, app_nil_l, Hids. cbn [map fst].
  rewrite map_map. done.
Qed.

End Settled.

(** ** Failure paths *)

Section Failures.

Variable env : Env.

Lemma clearTokens_removes s :
  hasWindow env = true ->
  (forall l k, removeItemThrows env l k = false) ->
  localStorage (clearTokens env s) !! "accessToken" = None /\
  localStorage (clearTokens env s) !! "refreshToken" = None.
Proof.
  intros Hw Hrm. unfold clearTokens, removeItem. rewrite Hw.
  cbn [localStorage withTokenManager]. rewrite !Hrm.
  cbn [localStorage withLocalStorage]. split.
  - rewrite lookup_delete_ne by done. apply lookup_delete_eq.
  - apply lookup_delete_eq.
Qed.

Lemma rejections_rejected (e : Reason) (q : list QueueEntry) :
  rejections (map (fun x => Rejected (entryCall x) e) q) =
  map (fun x => (entryCall x, e)) q.
Proof. induction q as [|x q IH]; [done|]. cbn. by rewrite <- IH. Qed.

Lemma navigations_rejected (e : Reason) (q : list QueueEntry) :
  navigations (map (fun x => Rejected (entryCall x) e) q) = [].
Proof. induction q as [|x q IH]; [done|]. cbn. exact IH. Qed.

Lemma refreshPosts_rejected (e : Reason) (q : list QueueEntry) :
  refreshPosts (map (fun x => Rejected (entryCall x) e) q) = [].
Proof. induction q as [|x q IH]; [done|]. cbn. exact IH. Qed.

(** C3. The refresh call awaited by [t] fails with the error [e] (what
    [axios.post] rejects with is an [Error]).  Then [t] and every queued
    call are rejected with [e]; both getters are null, and both keys are
    gone from [localStorage] where there is one and removing does not
    throw; the queue is empty, the flag and the outstanding call are
    cleared; [navigateToLogin] ran once, through the registered navigate
    function when there is one, else through [window.location] where
    there is a [window]; no refresh call was posted, and the step did
    nothing else. *)
Theorem refresh_failure_rejects_all
    (s : State) (t : CallId) (treq : Config) (body : string) (e : Reason) :
  refreshCalls s = [mkRefreshCall t treq body] ->
  microtasks s = [] ->
  instanceofError e = true ->
  let s' := step env s (RefreshError t e) in
  let effects := effectsOf env s (RefreshError t e) in
  effects =
    [NavigateTo (unauthorizedRedirect env) (navTarget env s); Rejected t e]
    ++ map (fun q => Rejected (entryCall q) e) (failedQueue s)
  /\ rejections effects = (t, e) :: map (fun q => (entryCall q, e)) (failedQueue s)
  /\ navigations effects = [unauthorizedRedirect env]
  /\ refreshPosts effects = []
  /\ getAccessToken s' = None
  /\ getRefreshToken s' = None
  /\ (hasWindow env = true ->
      (forall l k, removeItemThrows env l k = false) ->
      localStorage s' !! "accessToken" = None /\
      localStorage s' !! "refreshToken" = None)
  /\ failedQueue s' = []
  /\ isRefreshing s' = false
  /\ refreshCalls s' = [].
Proof.
  intros Hrc Hm He s' effects.
  pose proof (step_refresh_error env s (mkRefreshCall t treq body) [] e) as E.
  cbn [refreshCaller] in E. rewrite Hrc, take_single in E.
  specialize (E eq_refl Hm). fold s' in E.
  assert (Hq : queueError e = e) by (unfold queueError; by rewrite He).
  rewrite Hq in E.
  assert (Heff : effects =
    [NavigateTo (unauthorizedRedirect env) (navTarget env s); Rejected t e]
    ++ map (fun q => Rejected (entryCall q) e) (failedQueue s)).
  { subst effects. apply effectsOf_app. fold s'. by rewrite E. }
  split; [exact Heff|].
  repeat split.
  - rewrite Heff, rejections_app, rejections_rejected. done.
  - rewrite Heff, navigations_app, navigations_rejected. done.
  - rewrite Heff, refreshPosts_app, refreshPosts_rejected. done.
  - by rewrite E.
  - by rewrite E.
  - rewrite E. state_proj. by apply clearTokens_removes.
  - rewrite E. state_proj. by apply clearTokens_removes.
  - by rewrite E.
  - by rewrite E.
  - by rewrite E.
Qed.

(** C6. A request not yet marked [_retry] is answered 401 while the store
    holds no usable refresh token (null, or the empty string).  Then the
    store is cleared (as [clearTokens] clears it: both getters null, both
    keys removed where storage works), [navigateToLogin] runs, the caller
    is rejected with the 401 error itself, all in the same step; no refresh
    call is posted and none is outstanding afterwards that was not
    before. *)
Theorem unauthorized_without_refresh_token
    (s : State) (c : CallId) (cfg : Config) :
  inFlight s !! c = Some cfg ->
  _retry cfg = false ->
  truthy (getRefreshToken s) = false ->
  microtasks s = [] ->
  let s' := step env s (ResponseError c (Some 401)) in
  effectsOf env s (ResponseError c (Some 401)) =
    [NavigateTo (unauthorizedRedirect env) (navTarget env s);
     Rejected c (AxiosErr (unauthorized cfg))]
  /\ getAccessToken s' = None
  /\ getRefreshToken s' = None
  /\ localStorage s' = localStorage (clearTokens env s)
  /\ (hasWindow env = true ->
      (forall l k, removeItemThrows env l k = false) ->
      localStorage s' !! "accessToken" = None /\
      localStorage s' !! "refreshToken" = None)
  /\ coordinator s' = coordinator s
  /\ inFlight s' !! c = None
  /\ timers s' = timers s.
Proof.
  intros Hin Hr Htok Hm s'.
  pose proof (step_unauthorized_no_token env s c cfg Hin Hr Htok Hm) as E.
  fold s' in E.
  repeat split.
  - apply effectsOf_app. fold s'. by rewrite E.
  - by rewrite E.
  - by rewrite E.
  - by rewrite E.
  - rewrite E. state_proj. by apply clearTokens_removes.
  - rewrite E. state_proj. by apply clearTokens_removes.
  - unfold coordinator. rewrite E. state_proj.
    rewrite refreshPosts_app. cbn. by rewrite app_nil_r.
  - rewrite E. state_proj. apply lookup_delete_eq.
  - by rewrite E.
Qed.


End Failures.

(** ** Retry after a transport failure *)

Section NetworkRetry.

Variable env : Env.

Lemma initialize_frame s :
  exists reads,
    trace (initialize env s) = trace s ++ reads /\
    sends reads = [] /\
    inFlight (initialize env s) = inFlight s /\
    timers (initialize env s) = timers s.
Proof.
  unfold initialize.
  destruct (isInitialized (tokenManager s) || negb (hasWindow env)).
  { exists []. by rewrite app_nil_r. }
  destruct (initPromise (tokenManager s)).
  { exists []. by rewrite app_nil_r. }
  unfold _doInitialize, getStoredTokens.
  destruct (hasWindow env); cbn.
  - exists [StorageRead].
    destruct (getItemThrows env); cbn; [done|].
    by destruct (truthy (localStorage s !! "accessToken")
                 && truthy (localStorage s !! "refreshToken")).
  - exists []. by rewrite app_nil_r.
Qed.

Lemma requestInterceptor_markers cfg s :
  let cfg2 := (requestInterceptor env cfg s).1 in
  method cfg2 = method cfg /\ url cfg2 = url cfg /\
  _retry cfg2 = _retry cfg /\ _retryCount cfg2 = _retryCount cfg.
Proof.
  unfold requestInterceptor. cbn [fst].
  by destruct (truthy (getAccessToken (initialize env s))).
Qed.

Lemma dispatch_frame c cfg s :
  let cfg2 := (requestInterceptor env cfg s).1 in
  exists reads,
    trace (dispatch env c cfg s) = trace s ++ reads ++ [Send c cfg2] /\
    sends reads = [] /\
    inFlight (dispatch env c cfg s) = <[c:=cfg2]> (inFlight s) /\
    timers (dispatch env c cfg s) = timers s.
Proof.
  destruct (initialize_frame s) as (reads & Htr & Hs & Hin & Htim).
  exists reads. unfold dispatch, requestInterceptor. cbn [fst].
  state_proj. cbn [emit withInFlight trace inFlight timers].
  rewrite Htr, Hin, Htim. by rewrite <- app_assoc.
Qed.

(** C9. A request in flight, not yet marked [_retryCount], fails with no
    response.  Whatever the store and the coordinator hold, the step only
    starts a 1000 ms timer for the marked request.  When the timer fires
    the request is sent once more, marked; if that attempt fails with no
    response too, the caller is rejected with that very error, and no timer
    and no request is left for the call; an HTTP error other than 401 on
    that attempt is handed over unchanged as well. *)
Theorem network_error_retried_once
    (s : State) (c : CallId) (cfg : Config) :
  inFlight s !! c = Some cfg ->
  truthyCount (_retryCount cfg) = false ->
  microtasks s = [] ->
  let s1 := step env s (ResponseError c None) in
  let s2 := step env s1 (TimerFired c) in
  let s3 := step env s2 (ResponseError c None) in
  effectsOf env s (ResponseError c None) = [SetTimeout 1000 c]
  /\ timers s1 !! c = Some (markRetryCount cfg)
  /\ inFlight s1 !! c = None
  /\ tokenManager s1 = tokenManager s
  /\ coordinator s1 = coordinator s
  /\ exists cfg2,
       sends (effectsOf env s1 (TimerFired c)) = [(c, cfg2)]
       /\ method cfg2 = method cfg /\ url cfg2 = url cfg
       /\ _retryCount cfg2 = Some 1
       /\ inFlight s2 !! c = Some cfg2
       /\ timers s2 !! c = None
       /\ effectsOf env s2 (ResponseError c None) =
            [Rejected c (AxiosErr (mkAxiosError (Some cfg2) None))]
       /\ timers s3 !! c = None
       /\ inFlight s3 !! c = None
       /\ (forall st, st <> 401 ->
            effectsOf env s2 (ResponseError c (Some st)) =
            [Rejected c (AxiosErr (mkAxiosError (Some cfg2) (Some st)))]).
Proof.
  intros Hin Hcount Hm s1 s2 s3.
  pose proof (step_network_error env s c cfg Hin Hcount Hm) as E1.
  fold s1 in E1.
  assert (Ht1 : timers s1 !! c = Some (markRetryCount cfg)).
  { rewrite E1. state_proj. apply lookup_insert_eq. }
  assert (Hm1 : microtasks s1 = []) by (by rewrite E1).
  pose proof (step_timer env s1 c _ Ht1 Hm1) as E2. fold s2 in E2.
  set (s1' := emit (Invoke c (markRetryCount cfg))
                (withTimers (delete c (timers s1)) s1)) in E2.
  set (cfg2 := (requestInterceptor env (markRetryCount cfg) s1').1).
  destruct (dispatch_frame c (markRetryCount cfg) s1')
    as (reads & Htr & Hreads & Hfl & Htim).
  fold cfg2 in Htr, Hfl. rewrite <- E2 in Htr, Hfl, Htim.
  destruct (requestInterceptor_markers (markRetryCount cfg) s1')
    as (Hmeth & Hurl & _ & Hcnt).
  fold cfg2 in Hmeth, Hurl, Hcnt.
  assert (Hfl2 : inFlight s2 !! c = Some cfg2).
  { rewrite Hfl. apply lookup_insert_eq. }
  assert (Ht2 : timers s2 !! c = None).
  { rewrite Htim. subst s1'. state_proj.
    cbn [emit withTimers timers]. apply lookup_delete_eq. }
  assert (Hm2 : microtasks s2 = []) by apply step_empties.
  assert (Hc2 : truthyCount (_retryCount cfg2) = true) by (by rewrite Hcnt).
  pose proof (step_network_error_retried env s2 c cfg2 Hfl2 Hc2 Hm2) as E3.
  fold s3 in E3.
  split; [|split; [|split; [|split; [|split]]]].
  - apply effectsOf_app. fold s1. by rewrite E1.
  - exact Ht1.
  - rewrite E1. state_proj. apply lookup_delete_eq.
  - by rewrite E1.
  - unfold coordinator. rewrite E1. state_proj.
    rewrite refreshPosts_app. cbn. by rewrite app_nil_r.
  - exists cfg2. repeat split; try done.
    + rewrite (effectsOf_app env s1 (TimerFired c)
                 ([Invoke c (markRetryCount cfg)] ++ reads ++ [Send c cfg2])).
      * rewrite !sends_app, Hreads. done.
      * fold s2. rewrite Htr. subst s1'. cbn [emit withTimers trace].
        by rewrite <- !app_assoc.
    + apply effectsOf_app. fold s3. by rewrite E3.
    + rewrite E3. state_proj. exact Ht2.
    + rewrite E3. state_proj. apply lookup_delete_eq.
    + intros st Hst. apply effectsOf_app.
      by rewrite (step_http_error env s2 c cfg2 st Hfl2 Hst Hm2).
Qed.

End NetworkRetry.

(** ** The marker of the authentication retry *)

Section RetryMarker.

Variable env : Env.

(** The request that started the refresh was marked [_retry] before the
    refresh call; if its replay is answered 401 the caller gets that error
    and nothing else happens. *)
Lemma trigger_replay_unauthorized
    (s : State) (t : CallId) (treq : Config) (body a r : string) :
  refreshCalls s = [mkRefreshCall t treq body] ->
  _retry treq = true ->
  microtasks s = [] ->
  initDone env s = true ->
  a <> "" ->
  t ∉ map entryCall (failedQueue s) ->
  let s' := step env s (RefreshOk t a r) in
  effectsOf env s' (ResponseError t (Some 401)) =
  [Rejected t (AxiosErr (unauthorized (withAuthorization (bearer a) treq)))].
Proof.
  intros Hrc Hr Hm Hd Hne Hnotin s'.
  pose proof (step_refresh_ok env s (mkRefreshCall t treq body) [] a r) as E.
  cbn [refreshCaller refreshRequest] in E.
  rewrite Hrc, take_single in E. specialize (E eq_refl Hm Hd Hne).
  cbv zeta in E. fold s' in E.
  assert (Hfl : inFlight s' !! t = Some (withAuthorization (bearer a) treq)).
  { rewrite E. state_proj. cbn [map attach fst snd insertAll foldl].
    match goal with
    | |- foldl ?f ?m ?l !! _ = _ => change (foldl f m l) with (insertAll l m)
    end.
    rewrite insertAll_other; [apply lookup_insert_eq|].
    rewrite !map_map. cbn [attach fst entryPair].
    intros Hin. apply Hnotin. exact Hin. }
  assert (Hm' : microtasks s' = []) by (by rewrite E).
  apply effectsOf_app.
  by rewrite (step_unauthorized_retried env s' t _ Hfl Hr Hm').
Qed.

(** A queued request is pushed unmarked and replayed unmarked; if its
    replay is answered 401 it starts a refresh of its own. *)
Lemma queued_replay_unauthorized
    (s : State) (t : CallId) (treq : Config) (body a r : string)
    (c : CallId) (cfg : Config) :
  refreshCalls s = [mkRefreshCall t treq body] ->
  microtasks s = [] ->
  initDone env s = true ->
  a <> "" ->
  r <> "" ->
  NoDup (t :: map entryCall (failedQueue s)) ->
  mkEntry c cfg ∈ failedQueue s ->
  _retry cfg = false ->
  let s' := step env s (RefreshOk t a r) in
  effectsOf env s' (ResponseError c (Some 401)) =
  [RawPost "/api/auth/refresh" r None].
Proof.
  intros Hrc Hm Hd Hne Hner Hnd Hin Hr s'.
  pose proof (step_refresh_ok env s (mkRefreshCall t treq body) [] a r) as E.
  cbn [refreshCaller refreshRequest] in E.
  rewrite Hrc, take_single in E. specialize (E eq_refl Hm Hd Hne).
  cbv zeta in E. fold s' in E.
  assert (Hfl : inFlight s' !! c = Some (withAuthorization (bearer a) cfg)).
  { rewrite E. state_proj. apply insertAll_lookup.
    - rewrite map_map. cbn [map attach fst]. rewrite map_map.
      cbn [entryPair fst]. exact Hnd.
    - apply list_elem_of_In, in_map_iff. exists (c, cfg). split; [done|].
      right. apply in_map_iff. exists (mkEntry c cfg). split; [done|].
      by apply list_elem_of_In. }
  assert (Hm' : microtasks s' = []) by (by rewrite E).
  apply effectsOf_app.
  rewrite (step_unauthorized_first env s' c _ r Hfl Hr); try done.
  all: by rewrite E.
Qed.

End RetryMarker.

(** C4. In the scenario of the specification the refresh has answered with
    [("A2","R2")] and the three requests are in flight again.  A second 401
    for [GET /x], which started the refresh, is handed to the caller.  A
    second 401 for [GET /y], which waited in the queue, rejects nobody: it
    posts a second refresh call. *)
Theorem queued_request_is_refreshed_twice :
  let s := step browser threeUnauthorized (RefreshOk 0 "A2" "R2") in
  effectsOf browser s (ResponseError 0 (Some 401)) =
    [Rejected 0
       (AxiosErr (unauthorized (markRetry (sent "A2" "/x"))))]
  /\ effectsOf browser s (ResponseError 1 (Some 401)) =
    [RawPost "/api/auth/refresh" "R2" None]
  /\ isRefreshing (step browser s (ResponseError 1 (Some 401))) = true.
Proof. vm_compute. done. Qed.

(** C5, as the specification has it, fails in its scenario: the
    triggering [GET /x] is started again before the queued [GET /y], whether
    one looks at the calls of [apiClient] or at what reaches the
    transport. *)
Lemma replay_order_counterexample :
  let effects :=
    effectsOf browser threeUnauthorized (RefreshOk 0 "A2" "R2") in
  ~ replayedAsQueued 0 [1; 2] (invocations effects) /\
  ~ replayedAsQueued 0 [1; 2] (map fst (sends effects)).
Proof.
  split; intros [_ H]; apply (H 1).
  - apply elem_of_cons. by left.
  - exists [], [], [2]. vm_compute. reflexivity.
  - apply elem_of_cons. by left.
  - exists [], [], [2]. vm_compute. reflexivity.
Qed.


(** ** Invariants of the whole pipeline *)

Section Invariants.

Variable env : Env.

Lemma takeRefresh_caller c l rc rest :
  takeRefresh c l = Some (rc, rest) ->
  refreshCaller rc = c /\ length l = S (length rest).
Proof.
  revert rc rest. induction l as [|x l IH]; intros rc rest H; [done|].
  cbn [takeRefresh] in H. case_bool_decide as Hx.
  - by simplify_eq.
  - destruct (takeRefresh c l) as [[r l']|] eqn:Ht; [|done].
    simplify_eq. destruct (IH _ _ eq_refl) as [-> Hlen].
    cbn [length]. by rewrite Hlen.
Qed.

Lemma coordinated_coordinator s1 s2 :
  coordinator s1 = coordinator s2 -> coordinated s2 -> coordinated s1.
Proof.
  unfold coordinator, coordinated. intros [= -> -> -> _]. done.
Qed.

Lemma onRejected_coordinated c error s :
  coordinated s -> coordinated (onRejected env c error s).
Proof.
  intros [Hlen Hq]. unfold onRejected.
  destruct (config error) as [req|]; [|done].
  destruct (bool_decide (response error = Some 401) && negb (_retry req)).
  - destruct (negb (truthy (getRefreshToken s))).
    + eapply coordinated_coordinator; [|split; [exact Hlen|exact Hq]].
      rewrite emit_coordinator by done. unfold navigateToLogin.
      rewrite navigateTo_emit, emit_coordinator by done.
      apply clearTokens_coordinator.
    + destruct (isRefreshing s) eqn:Hflag.
      * unfold coordinated, withFailedQueue. state_proj.
        rewrite Hflag. by split.
      * unfold coordinated, emit, withRefreshCalls, withIsRefreshing.
        state_proj. rewrite length_app, Hlen. cbn.
        split; [done|]. intros [=].
  - destruct (bool_decide (response error = None)
              && negb (truthyCount (_retryCount req))); done.
Qed.

Lemma step_coordinated s ev : coordinated s -> coordinated (step env s ev).
Proof.
  intros Hs.
  assert (Hsettle : forall c o, coordinated (step env s (settle c o))).
  { intros c o. destruct (takeRefresh c (refreshCalls s)) as [[rc rest]|] eqn:Ht.
    - destruct (takeRefresh_caller _ _ _ _ Ht) as [<- Hlen].
      pose proof (settle_coordinator env s rc rest o Ht) as Hc.
      destruct Hs as [Hl _]. rewrite Hlen in Hl.
      destruct (isRefreshing s); [|done]. injection Hl as Hl.
      destruct rest; [|done].
      unfold coordinator in Hc. injection Hc as Hf Hq Hr _.
      unfold coordinated. rewrite Hf, Hq, Hr. done.
    - eapply coordinated_coordinator; [|exact Hs].
      rewrite step_coordinator. destruct o; cbn [settle handle]; by rewrite Ht. }
  destruct ev as [c cfg|c r|c resp|c a r|c e|c|a r| |].
  - eapply coordinated_coordinator; [|exact Hs].
    rewrite step_coordinator. cbn [handle]. unfold apiClient, enqueue.
    change (coordinator (withMicrotasks ?m ?s0)) with (coordinator s0).
    by rewrite emit_coordinator.
  - eapply coordinated_coordinator; [|exact Hs].
    rewrite step_coordinator. cbn [handle].
    destruct (inFlight s !! c); [|done]. by rewrite emit_coordinator.
  - eapply coordinated_coordinator; [apply step_coordinator|].
    cbn [handle]. destruct (inFlight s !! c); [|exact Hs].
    by apply onRejected_coordinated.
  - apply (Hsettle c (Renewed a r)).
  - apply (Hsettle c (Failed e)).
  - eapply coordinated_coordinator; [|exact Hs].
    rewrite step_coordinator. cbn [handle].
    destruct (timers s !! c); [|done]. unfold apiClient, enqueue.
    change (coordinator (withMicrotasks ?m ?s0)) with (coordinator s0).
    by rewrite emit_coordinator.
  - eapply coordinated_coordinator; [|exact Hs].
    rewrite step_coordinator. apply setTokens_coordinator.
  - eapply coordinated_coordinator; [|exact Hs].
    rewrite step_coordinator. apply clearTokens_coordinator.
  - eapply coordinated_coordinator; [|exact Hs].
    by rewrite step_coordinator.
Qed.

(** X18. Whatever the outside delivers, in whatever order, at most one
    refresh call is outstanding, and the flag says whether one is. *)
Lemma at_most_one_refresh_outstanding stored evs :
  coordinated (run env (initialState stored) evs) /\
  length (refreshCalls (run env (initialState stored) evs)) <= 1.
Proof.
  assert (H : forall s, coordinated s -> coordinated (run env s evs)).
  { induction evs as [|ev evs IH]; intros s Hs; [done|].
    rewrite run_cons. apply IH. by apply step_coordinated. }
  assert (Hc : coordinated (run env (initialState stored) evs)).
  { apply H. by split. }
  split; [exact Hc|]. destruct Hc as [-> _].
  destruct (isRefreshing _); lia.
Qed.

Lemma processQueue_tokenManager error token s :
  tokenManager (processQueue error token s) = tokenManager s.
Proof.
  unfold processQueue. cbn [tokenManager withFailedQueue].
  generalize (failedQueue s). intros q. revert s.
  induction q as [|x q IH]; intros s; [done|].
  cbn [foldl]. rewrite IH. by destruct error.
Qed.

Lemma runMicrotask_pairOk m s :
  pairOk (tokenManager s) -> pairOk (tokenManager (runMicrotask env m s)).
Proof.
  destruct m as [c req tok|c err|c cfg]; [done|done|].
  unfold runMicrotask, dispatch, requestInterceptor.
  cbn [tokenManager emit withInFlight]. apply initialize_pairOk.
Qed.

Lemma runMicrotasks_pairOk fuel : forall s,
  pairOk (tokenManager s) -> pairOk (tokenManager (runMicrotasks env fuel s)).
Proof.
  induction fuel as [|fuel IH]; intros s Hs; cbn [runMicrotasks]; [done|].
  destruct (microtasks s) as [|m rest] eqn:Hm; [done|].
  apply IH, runMicrotask_pairOk. exact Hs.
Qed.

Lemma handle_pairOk ev s :
  pairOk (tokenManager s) -> pairOk (tokenManager (handle env ev s)).
Proof.
  assert (Hset : forall a r s0, pairOk (tokenManager (setTokens env a r s0))).
  { intros a r s0. rewrite setTokens_tokenManager. unfold pairOk; cbn.
    split; eauto. }
  assert (Hclear : forall s0, pairOk (tokenManager (clearTokens env s0))).
  { intros s0. rewrite clearTokens_tokenManager. unfold pairOk; cbn.
    split; intros [? ?]; done. }
  intros Hs. destruct ev as [c cfg|c r|c resp|c a r|c e|c|a r| |];
    cbn [handle].
  - done.
  - by destruct (inFlight s !! c).
  - destruct (inFlight s !! c) as [cfg|]; [|done]. unfold onRejected.
    cbn [config response].
    destruct (bool_decide (resp = Some 401) && negb (_retry cfg)).
    + destruct (negb (truthy _)).
      * unfold navigateToLogin. rewrite navigateTo_emit.
        cbn [tokenManager emit]. apply Hclear.
      * by destruct (isRefreshing _).
    + by destruct (bool_decide (resp = None)
                   && negb (truthyCount (_retryCount cfg))).
  - destruct (takeRefresh c (refreshCalls s)) as [[rc rest]|]; [|done].
    unfold refreshSucceeded, apiClient.
    cbn [tokenManager withIsRefreshing enqueue withMicrotasks emit].
    rewrite processQueue_tokenManager. apply Hset.
  - destruct (takeRefresh c (refreshCalls s)) as [[rc rest]|]; [|done].
    unfold refreshFailed, navigateToLogin. rewrite navigateTo_emit.
    cbn [tokenManager withIsRefreshing emit]. apply Hclear.
  - by destruct (timers s !! c).
  - apply Hset.
  - apply Hclear.
  - done.
Qed.

(** The pair stays whole through the events of the pipeline.  A
    [RefreshOk] carries both tokens; the source stores what the refresh
    answer holds without checking it, so nothing is said here about an
    answer that lacks one. *)
Lemma pipeline_keeps_pair stored evs :
  pairOk (tokenManager (run env (initialState stored) evs)).
Proof.
  assert (H : forall s, pairOk (tokenManager s) ->
                        pairOk (tokenManager (run env s evs))).
  { induction evs as [|ev evs IH]; intros s Hs; [done|].
    rewrite run_cons. apply IH. unfold step, drain.
    by apply runMicrotasks_pairOk, handle_pairOk. }
  apply H. unfold pairOk; cbn. split; intros [? ?]; done.
Qed.

End Invariants.

(** Without [window] there is no storage to read: [initialize] returns at
    its first test, every time. *)
Lemma initialize_without_window (env : Env) (s : State) :
  hasWindow env = false -> initialize env s = s.
Proof.
  intros Hw. apply initialize_done. rewrite Hw. apply orb_true_r.
Qed.

(** ** The scenarios of the specification *)

(** Scenario 7: one refresh call, then the three requests are sent again
    with the new token, [GET /x] first. *)
Example scenario7_trace :
  refreshPosts (trace threeUnauthorized) = ["R1"] /\
  sends (effectsOf browser threeUnauthorized (RefreshOk 0 "A2" "R2")) =
    [(0, markRetry (sent "A2" "/x")); (1, sent "A2" "/y");
     (2, sent "A2" "/z")].
Proof. split; vm_compute; reflexivity. Qed.

(** Scenario 8: the refresh call is answered 400; one navigation, three
    rejections, nothing sent. *)
Example scenario8_trace :
  let e := AxiosErr (mkAxiosError None (Some 400)) in
  effectsOf browser threeUnauthorized (RefreshError 0 e) =
    [NavigateTo "/login" Router; Rejected 0 e; Rejected 1 e; Rejected 2 e].
Proof. vm_compute. reflexivity. Qed.

(** Scenario 7, up to the three 401 answers and through the refresh. *)
Lemma single_refresh_for_concurrent_failures_witness :
  let first := (0, sent "A1" "/x") in
  let others := [(1, sent "A1" "/y"); (2, sent "A1" "/z")] in
  let call := mkRefreshCall 0 (markRetry (sent "A1" "/x")) "R1" in
  let s1 := step browser threeInFlight (unauthorizedAnswer first) in
  let sN := run browser s1 (map unauthorizedAnswer others) in
  let sF := step browser sN (settle 0 (Renewed "A2" "R2")) in
  coordinator s1 = (true, [], [call], [] ++ ["R1"]) /\
  coordinator sN = (true, map entryOf others, [call], [] ++ ["R1"]) /\
  tokenManager sN = tokenManager threeInFlight /\
  coordinator sF = (false, [], [], [] ++ ["R1"]).
Proof.
  apply (single_refresh_for_concurrent_failures browser threeInFlight
           (0, sent "A1" "/x") [(1, sent "A1" "/y"); (2, sent "A1" "/z")]
           "R1" (Renewed "A2" "R2")).
  - cbn. lia.
  - apply (bool_decide_unpack (NoDup _)). vm_compute. exact I.
  - repeat (apply Forall_cons; split; [split; vm_compute; reflexivity|]).
    apply Forall_nil_2.
  - vm_compute. reflexivity.
  - discriminate.
  - vm_compute. reflexivity.
  - vm_compute. reflexivity.
  - vm_compute. reflexivity.
  - vm_compute. reflexivity.
Defined.


(** Scenario 8: the refresh call is answered 400. *)
Lemma refresh_failure_rejects_all_witness :
  let s := threeUnauthorized in
  let e := AxiosErr (mkAxiosError None (Some 400)) in
  let s' := step browser s (RefreshError 0 e) in
  let effects := effectsOf browser s (RefreshError 0 e) in
  effects =
    [NavigateTo (unauthorizedRedirect browser) (navTarget browser s);
     Rejected 0 e]
    ++ map (fun q => Rejected (entryCall q) e) (failedQueue s)
  /\ rejections effects =
    (0, e) :: map (fun q => (entryCall q, e)) (failedQueue s)
  /\ navigations effects = [unauthorizedRedirect browser]
  /\ refreshPosts effects = []
  /\ getAccessToken s' = None
  /\ getRefreshToken s' = None
  /\ (hasWindow browser = true ->
      (forall l k, removeItemThrows browser l k = false) ->
      localStorage s' !! "accessToken" = None /\
      localStorage s' !! "refreshToken" = None)
  /\ failedQueue s' = []
  /\ isRefreshing s' = false
  /\ refreshCalls s' = [].
Proof.
  apply (refresh_failure_rejects_all browser threeUnauthorized 0
           (markRetry (sent "A1" "/x")) "R1"
           (AxiosErr (mkAxiosError None (Some 400)))).
  - vm_compute. reflexivity.
  - vm_compute. reflexivity.
  - reflexivity.
Defined.

Lemma replay_starts_with_trigger_witness :
  invocations (effectsOf browser threeUnauthorized (RefreshOk 0 "A2" "R2")) =
    0 :: map entryCall (failedQueue threeUnauthorized)
  /\ map fst (sends (effectsOf browser threeUnauthorized
                       (RefreshOk 0 "A2" "R2"))) =
    0 :: map entryCall (failedQueue threeUnauthorized).
Proof.
  apply (replay_starts_with_trigger browser threeUnauthorized 0
           (markRetry (sent "A1" "/x")) "R1" "A2" "R2").
  - vm_compute. reflexivity.
  - vm_compute. reflexivity.
  - vm_compute. reflexivity.
  - discriminate.
Defined.

Lemma unauthorized_without_refresh_token_witness :
  let s := anonymousInFlight in
  let s' := step browser s (ResponseError 0 (Some 401)) in
  effectsOf browser s (ResponseError 0 (Some 401)) =
    [NavigateTo (unauthorizedRedirect browser) (navTarget browser s);
     Rejected 0 (AxiosErr (unauthorized (get "/x")))]
  /\ getAccessToken s' = None
  /\ getRefreshToken s' = None
  /\ localStorage s' = localStorage (clearTokens browser s)
  /\ (hasWindow browser = true ->
      (forall l k, removeItemThrows browser l k = false) ->
      localStorage s' !! "accessToken" = None /\
      localStorage s' !! "refreshToken" = None)
  /\ coordinator s' = coordinator s
  /\ inFlight s' !! 0 = None
  /\ timers s' = timers s.
Proof.
  apply (unauthorized_without_refresh_token browser anonymousInFlight 0
           (get "/x")).
  - vm_compute. reflexivity.
  - reflexivity.
  - vm_compute. reflexivity.
  - vm_compute. reflexivity.
Defined.

Lemma network_error_retried_once_witness :
  let s := threeInFlight in
  let cfg := sent "A1" "/y" in
  let s1 := step browser s (ResponseError 1 None) in
  let s2 := step browser s1 (TimerFired 1) in
  let s3 := step browser s2 (ResponseError 1 None) in
  effectsOf browser s (ResponseError 1 None) = [SetTimeout 1000 1]
  /\ timers s1 !! 1 = Some (markRetryCount cfg)
  /\ inFlight s1 !! 1 = None
  /\ tokenManager s1 = tokenManager s
  /\ coordinator s1 = coordinator s
  /\ exists cfg2,
       sends (effectsOf browser s1 (TimerFired 1)) = [(1, cfg2)]
       /\ method cfg2 = method cfg /\ url cfg2 = url cfg
       /\ _retryCount cfg2 = Some 1
       /\ inFlight s2 !! 1 = Some cfg2
       /\ timers s2 !! 1 = None
       /\ effectsOf browser s2 (ResponseError 1 None) =
            [Rejected 1 (AxiosErr (mkAxiosError (Some cfg2) None))]
       /\ timers s3 !! 1 = None
       /\ inFlight s3 !! 1 = None
       /\ (forall st, st <> 401 ->
            effectsOf browser s2 (ResponseError 1 (Some st)) =
            [Rejected 1 (AxiosErr (mkAxiosError (Some cfg2) (Some st)))]).
Proof.
  apply (network_error_retried_once browser threeInFlight 1
           (sent "A1" "/y")).
  - vm_compute. reflexivity.
  - reflexivity.
  - vm_compute. reflexivity.
Defined.



(** * More properties of the code *)

(** ** How the pieces of a step change the state *)

Section Frames.

Variable env : Env.

Lemma processQueue_spec error token s :
  processQueue error token s =
  withFailedQueue []
    (withMicrotasks
       (microtasks s ++ map (settleJob error token) (failedQueue s)) s).
Proof.
  unfold processQueue.
  assert (H : forall q s0,
    foldl (fun acc e =>
             match error with
             | Some err => enqueue (ReplayCatch (entryCall e) err) acc
             | None =>
                 enqueue (ReplayThen (entryCall e) (entryRequest e) token) acc
             end) s0 q =
    withMicrotasks (microtasks s0 ++ map (settleJob error token) q) s0).
  { induction q as [|e q IH]; intros s0; cbn [foldl map].
    - destruct s0; cbn. by rewrite app_nil_r.
    - rewrite IH. destruct s0, error; cbn; unfold withMicrotasks; cbn;
        by rewrite <- app_assoc. }
  by rewrite H.
Qed.

(** [initialize] when it does run. *)
Lemma initialize_runs s :
  hasWindow env = true ->
  isInitialized (tokenManager s) = false ->
  initPromise (tokenManager s) = None ->
  initialize env s =
  withTokenManager
    (mkTokenManager (loadedPair env s).1 (loadedPair env s).2 true (Some ()))
    (emit StorageRead s).
Proof.
  intros Hw Hi Hp. unfold initialize, _doInitialize, getStoredTokens, loadedPair.
  rewrite Hi, Hw, Hp. cbn [orb negb].
  destruct s as [[a r i p] ls nf ir fq rcs inf tim mt tr]. cbn.
  destruct (getItemThrows env); cbn; [done|].
  by destruct (truthy (ls !! "accessToken") && truthy (ls !! "refreshToken")).
Qed.

(** ... and when it does not. *)
Lemma initialize_skips s :
  isInitialized (tokenManager s) = true \/ hasWindow env = false \/
  is_Some (initPromise (tokenManager s)) ->
  initialize env s = s.
Proof.
  unfold initialize. intros [Hi|[Hw|[p Hp]]].
  - by rewrite Hi.
  - rewrite Hw. cbn. by rewrite orb_true_r.
  - rewrite Hp. by destruct (_ || _).
Qed.

Lemma initialize_cases s :
  initialize env s = s \/
  (hasWindow env = true /\
   isInitialized (tokenManager s) = false /\
   initialize env s =
   withTokenManager
     (mkTokenManager (loadedPair env s).1 (loadedPair env s).2 true
        (Some ()))
     (emit StorageRead s)).
Proof.
  destruct (isInitialized (tokenManager s)) eqn:Hi.
  { left. apply initialize_skips. by left. }
  destruct (hasWindow env) eqn:Hw.
  2:{ left. apply initialize_skips. right. by left. }
  destruct (initPromise (tokenManager s)) eqn:Hp.
  { left. apply initialize_skips. right. right. by eexists. }
  right. split; [done|]. split; [done|]. by apply initialize_runs.
Qed.

Lemma setTokens_other_key a r s k :
  ~ tokenKey k ->
  localStorage (setTokens env a r s) !! k = localStorage s !! k.
Proof.
  intros Hk. unfold tokenKey in Hk.
  unfold setTokens, setItem. destruct (hasWindow env); [|done].
  cbn [localStorage withTokenManager].
  destruct (setItemThrows env _ "accessToken" a); [done|].
  destruct (setItemThrows env _ "refreshToken" r);
    cbn [localStorage withLocalStorage withTokenManager];
    rewrite ?lookup_insert_ne; try done; naive_solver.
Qed.

Lemma clearTokens_other_key s k :
  ~ tokenKey k ->
  localStorage (clearTokens env s) !! k = localStorage s !! k.
Proof.
  intros Hk. unfold tokenKey in Hk.
  unfold clearTokens, removeItem. destruct (hasWindow env); [|done].
  cbn [localStorage withTokenManager].
  destruct (removeItemThrows env _ "accessToken"); [done|].
  destruct (removeItemThrows env _ "refreshToken");
    cbn [localStorage withLocalStorage withTokenManager];
    rewrite ?lookup_delete_ne; try done; naive_solver.
Qed.

End Frames.

(** ** What a step adds to the trace *)

Section Growth.

Variable env : Env.

Lemma jobEffect_ok e : jobEffect env e -> effectOk env e.
Proof. by destruct e. Qed.

Lemma handlerEffect_ok e : handlerEffect env e -> effectOk env e.
Proof. by intros [H _]. Qed.

Lemma initialize_trace s :
  exists reads,
    trace (initialize env s) = trace s ++ reads /\
    Forall (jobEffect env) reads.
Proof.
  destruct (initialize_cases env s) as [->|(Hw & _ & ->)].
  - exists []. by rewrite app_nil_r.
  - exists [StorageRead]. split; [done|]. by apply Forall_singleton.
Qed.

Lemma runMicrotask_trace m s :
  exists new,
    trace (runMicrotask env m s) = trace s ++ new /\
    Forall (jobEffect env) new.
Proof.
  destruct m as [c req tok|c err|c cfg]; unfold runMicrotask.
  - eexists [_]. split; [done|]. by apply Forall_singleton.
  - eexists [_]. split; [done|]. by apply Forall_singleton.
  - destruct (initialize_trace s) as (reads & Htr & Hreads).
    eexists (reads ++ [_]). unfold dispatch, requestInterceptor.
    cbn [trace emit withInFlight fst snd]. rewrite Htr, <- app_assoc.
    split; [done|]. apply Forall_app. split; [done|].
    by apply Forall_singleton.
Qed.

Lemma runMicrotasks_trace fuel : forall s,
  exists new,
    trace (runMicrotasks env fuel s) = trace s ++ new /\
    Forall (jobEffect env) new.
Proof.
  induction fuel as [|fuel IH]; intros s; cbn [runMicrotasks].
  { exists []. by rewrite app_nil_r. }
  destruct (microtasks s) as [|m rest].
  { exists []. by rewrite app_nil_r. }
  destruct (runMicrotask_trace m (withMicrotasks rest s)) as (n1 & H1 & F1).
  destruct (IH (runMicrotask env m (withMicrotasks rest s)))
    as (n2 & H2 & F2).
  exists (n1 ++ n2). rewrite H2, H1. cbn [trace withMicrotasks].
  rewrite <- app_assoc. split; [done|]. by apply Forall_app.
Qed.

Lemma setTokens_trace a r s : trace (setTokens env a r s) = trace s.
Proof. by rewrite setTokens_frame. Qed.

Lemma clearTokens_trace s : trace (clearTokens env s) = trace s.
Proof. by rewrite clearTokens_frame. Qed.

Lemma truthy_nonempty o : truthy o = true -> default "" o <> "".
Proof. destruct o as [[|]|]; done. Qed.

Lemma onRejected_trace c error s :
  exists new,
    trace (onRejected env c error s) = trace s ++ new /\
    Forall (handlerEffect env) new.
Proof.
  unfold onRejected. destruct (config error) as [req|].
  2:{ eexists [_]. split; [done|]. by apply Forall_singleton. }
  destruct (bool_decide (response error = Some 401) && negb (_retry req)).
  - destruct (truthy (getRefreshToken s)) eqn:Htok; cbn [negb].
    + destruct (isRefreshing s).
      * exists []. by rewrite app_nil_r.
      * eexists [_]. split; [done|]. apply Forall_singleton.
        split; [|done]. cbn. split; [done|]. split; [|done].
        by apply truthy_nonempty.
    + unfold navigateToLogin. rewrite navigateTo_emit.
      eexists [_; _]. cbn [trace emit]. rewrite clearTokens_trace.
      rewrite <- app_assoc. split; [done|].
      repeat (apply Forall_cons; split; [by split|]). apply Forall_nil_2.
  - destruct (bool_decide (response error = None)
              && negb (truthyCount (_retryCount req))).
    + eexists [_]. split; [done|]. by apply Forall_singleton.
    + eexists [_]. split; [done|]. by apply Forall_singleton.
Qed.

Lemma handle_trace ev s :
  exists new,
    trace (handle env ev s) = trace s ++ new /\
    Forall (handlerEffect env) new.
Proof.
  assert (Hnone : exists new : list Effect,
            trace s = trace s ++ new /\ Forall (handlerEffect env) new).
  { exists []. by rewrite app_nil_r. }
  destruct ev as [c cfg|c r|c resp|c a r|c e|c|a r| |]; cbn [handle].
  - eexists [_]. split; [done|]. by apply Forall_singleton.
  - destruct (inFlight s !! c); [|done].
    eexists [_]. split; [done|]. by apply Forall_singleton.
  - destruct (inFlight s !! c); [|done].
    destruct (onRejected_trace c (mkAxiosError (Some c0) resp)
                (withInFlight (delete c (inFlight s)) s)) as (new & H & F).
    by exists new.
  - destruct (takeRefresh c (refreshCalls s)) as [[rc rest]|]; [|done].
    unfold refreshSucceeded. rewrite processQueue_spec.
    eexists [_]. cbn [trace withIsRefreshing apiClient enqueue emit
                      withMicrotasks withFailedQueue].
    rewrite setTokens_trace. split; [done|]. by apply Forall_singleton.
  - destruct (takeRefresh c (refreshCalls s)) as [[rc rest]|]; [|done].
    unfold refreshFailed, navigateToLogin.
    rewrite navigateTo_emit, processQueue_spec.
    eexists [_; _]. cbn [trace withIsRefreshing emit]. rewrite clearTokens_trace.
    cbn [trace withMicrotasks withFailedQueue withRefreshCalls].
    rewrite <- app_assoc. split; [done|].
    repeat (apply Forall_cons; split; [by split|]). apply Forall_nil_2.
  - destruct (timers s !! c); [|done].
    eexists [_]. split; [done|]. by apply Forall_singleton.
  - by rewrite setTokens_trace.
  - by rewrite clearTokens_trace.
  - done.
Qed.

Lemma step_trace s ev :
  exists new,
    trace (step env s ev) = trace s ++ new /\ Forall (effectOk env) new.
Proof.
  destruct (handle_trace ev s) as (n1 & H1 & F1).
  destruct (runMicrotasks_trace (jobsWeight (microtasks (handle env ev s)))
              (handle env ev s)) as (n2 & H2 & F2).
  exists (n1 ++ n2). unfold step, drain. rewrite H2, H1, <- app_assoc.
  split; [done|]. apply Forall_app. split.
  - eapply Forall_impl; [exact F1|]. apply handlerEffect_ok.
  - eapply Forall_impl; [exact F2|]. apply jobEffect_ok.
Qed.

Lemma run_trace evs : forall s,
  exists new,
    trace (run env s evs) = trace s ++ new /\ Forall (effectOk env) new.
Proof.
  induction evs as [|ev evs IH]; intros s.
  { exists []. by rewrite app_nil_r. }
  rewrite run_cons.
  destruct (step_trace s ev) as (n1 & H1 & F1).
  destruct (IH (step env s ev)) as (n2 & H2 & F2).
  exists (n1 ++ n2). rewrite H2, H1, <- app_assoc.
  split; [done|]. by apply Forall_app.
Qed.

End Growth.

(** X1. Whatever the outside delivers, every effect of the pipeline has
    one of the expected shapes: each raw post goes to the refresh endpoint,
    carries a non-empty refresh token and no [Authorization] header; each
    navigation goes to the unauthorized redirect of [AUTH_CONFIG]; each
    timer is the one-second one; storage is read only where [window]
    exists. *)
Theorem pipeline_effects_well_formed (env : Env)
    (stored : gmap string string) (evs : list Event) :
  Forall (effectOk env) (trace (run env (initialState stored) evs)).
Proof.
  destruct (run_trace env evs (initialState stored)) as (new & -> & F).
  exact F.
Qed.

(** ** What the pipeline does to [localStorage] *)

Section StorageUse.

Variable env : Env.

Lemma runMicrotask_localStorage m s :
  localStorage (runMicrotask env m s) = localStorage s.
Proof.
  destruct m as [c req tok|c err|c cfg]; [done|done|].
  unfold runMicrotask, dispatch, requestInterceptor.
  cbn [localStorage emit withInFlight]. apply initialize_localStorage.
Qed.

Lemma runMicrotasks_localStorage fuel : forall s,
  localStorage (runMicrotasks env fuel s) = localStorage s.
Proof.
  induction fuel as [|fuel IH]; intros s; cbn [runMicrotasks]; [done|].
  destruct (microtasks s) as [|m rest]; [done|].
  by rewrite IH, runMicrotask_localStorage.
Qed.

Lemma handle_other_key ev s k :
  ~ tokenKey k ->
  localStorage (handle env ev s) !! k = localStorage s !! k.
Proof.
  intros Hk.
  destruct ev as [c cfg|c r|c resp|c a r|c e|c|a r| |]; cbn [handle].
  - done.
  - by destruct (inFlight s !! c).
  - destruct (inFlight s !! c) as [cfg|]; [|done]. unfold onRejected.
    cbn [config response].
    destruct (bool_decide (resp = Some 401) && negb (_retry cfg)).
    + destruct (negb (truthy _)).
      * unfold navigateToLogin. rewrite navigateTo_emit.
        cbn [localStorage emit]. by rewrite clearTokens_other_key.
      * by destruct (isRefreshing _).
    + by destruct (bool_decide (resp = None)
                   && negb (truthyCount (_retryCount cfg))).
  - destruct (takeRefresh c (refreshCalls s)) as [[rc rest]|]; [|done].
    unfold refreshSucceeded. rewrite processQueue_spec.
    cbn [localStorage withIsRefreshing apiClient enqueue emit withMicrotasks
         withFailedQueue].
    by rewrite setTokens_other_key.
  - destruct (takeRefresh c (refreshCalls s)) as [[rc rest]|]; [|done].
    unfold refreshFailed, navigateToLogin.
    rewrite navigateTo_emit, processQueue_spec.
    cbn [localStorage withIsRefreshing emit].
    by rewrite clearTokens_other_key.
  - by destruct (timers s !! c).
  - by apply setTokens_other_key.
  - by apply clearTokens_other_key.
  - done.
Qed.

Lemma step_other_key s ev k :
  ~ tokenKey k ->
  localStorage (step env s ev) !! k = localStorage s !! k.
Proof.
  intros Hk. unfold step, drain.
  rewrite runMicrotasks_localStorage. by apply handle_other_key.
Qed.

End StorageUse.

(** X2. The client owns two keys of [localStorage] and no other: whatever
    the outside delivers and whenever storage throws, every other key holds
    at the end what it held at the start. *)
Theorem pipeline_touches_only_token_keys (env : Env) (s : State)
    (evs : list Event) (k : string) :
  ~ tokenKey k ->
  localStorage (run env s evs) !! k = localStorage s !! k.
Proof.
  intros Hk. revert s. induction evs as [|ev evs IH]; intros s; [done|].
  rewrite run_cons, IH. by apply step_other_key.
Qed.

Lemma pipeline_touches_only_token_keys_witness :
  localStorage (run browser threeUnauthorized [RefreshOk 0 "A2" "R2"])
    !! "theme" =
  localStorage threeUnauthorized !! "theme".
Proof.
  apply (pipeline_touches_only_token_keys browser threeUnauthorized
           [RefreshOk 0 "A2" "R2"] "theme").
  intros [H|H]; discriminate H.
Defined.

(** ** Reading storage *)

Section Loading.

Variable env : Env.

Lemma storageReads_append tr1 tr2 :
  storageReads (tr1 ++ tr2) = storageReads tr1 + storageReads tr2.
Proof. unfold storageReads. by rewrite filter_app, length_app. Qed.

Lemma storageReads_none new :
  Forall (fun e => e <> StorageRead) new -> storageReads new = 0.
Proof.
  unfold storageReads. induction 1 as [|e new He _ IH]; [done|].
  rewrite filter_cons. by destruct (decide (e = StorageRead)).
Qed.

Lemma handle_isInitialized ev s :
  isInitialized (tokenManager (handle env ev s)) =
  isInitialized (tokenManager s).
Proof.
  destruct ev as [c cfg|c r|c resp|c a r|c e|c|a r| |]; cbn [handle].
  - done.
  - by destruct (inFlight s !! c).
  - destruct (inFlight s !! c) as [cfg|]; [|done]. unfold onRejected.
    cbn [config response].
    destruct (bool_decide (resp = Some 401) && negb (_retry cfg)).
    + destruct (negb (truthy _)).
      * unfold navigateToLogin. rewrite navigateTo_emit.
        cbn [tokenManager emit]. by rewrite clearTokens_tokenManager.
      * by destruct (isRefreshing _).
    + by destruct (bool_decide (resp = None)
                   && negb (truthyCount (_retryCount cfg))).
  - destruct (takeRefresh c (refreshCalls s)) as [[rc rest]|]; [|done].
    unfold refreshSucceeded. rewrite processQueue_spec.
    cbn [tokenManager withIsRefreshing apiClient enqueue emit withMicrotasks
         withFailedQueue].
    by rewrite setTokens_tokenManager.
  - destruct (takeRefresh c (refreshCalls s)) as [[rc rest]|]; [|done].
    unfold refreshFailed, navigateToLogin.
    rewrite navigateTo_emit, processQueue_spec.
    cbn [tokenManager withIsRefreshing emit].
    by rewrite clearTokens_tokenManager.
  - by destruct (timers s !! c).
  - by rewrite setTokens_tokenManager.
  - by rewrite clearTokens_tokenManager.
  - done.
Qed.

Lemma handle_loadedOnce ev s : loadedOnce s -> loadedOnce (handle env ev s).
Proof.
  unfold loadedOnce. rewrite handle_isInitialized.
  destruct (handle_trace env ev s) as (new & -> & F).
  rewrite storageReads_append, (storageReads_none new);
    [by rewrite Nat.add_0_r|].
  eapply Forall_impl; [exact F|]. by intros e [_ He].
Qed.

Lemma runMicrotask_loadedOnce m s :
  loadedOnce s -> loadedOnce (runMicrotask env m s).
Proof.
  assert (Hemit : forall e s0, e <> StorageRead ->
            loadedOnce s0 -> loadedOnce (emit e s0)).
  { intros e s0 He. unfold loadedOnce. cbn [tokenManager trace emit].
    rewrite storageReads_append, (storageReads_none [e]);
      [by rewrite Nat.add_0_r|by apply Forall_singleton]. }
  destruct m as [c req tok|c err|c cfg]; unfold runMicrotask.
  - intros Hs. unfold replayThen, apiClient, enqueue.
    change (loadedOnce (withMicrotasks ?m ?s0)) with (loadedOnce s0).
    by apply Hemit.
  - by apply Hemit.
  - intros Hs. unfold dispatch, requestInterceptor. cbn [fst snd].
    apply Hemit; [done|].
    change (loadedOnce (withInFlight ?m ?s0)) with (loadedOnce s0).
    destruct (initialize_cases env s) as [->|(_ & Hi & ->)]; [done|].
    unfold loadedOnce in *. rewrite Hi in Hs.
    cbn [tokenManager withTokenManager isInitialized trace emit].
    assert (E : storageReads [StorageRead] = 1) by reflexivity.
    rewrite storageReads_append, Hs, E. lia.
Qed.

Lemma runMicrotasks_loadedOnce fuel : forall s,
  loadedOnce s -> loadedOnce (runMicrotasks env fuel s).
Proof.
  induction fuel as [|fuel IH]; intros s Hs; cbn [runMicrotasks]; [done|].
  destruct (microtasks s) as [|m rest] eqn:Hm; [done|].
  apply IH, runMicrotask_loadedOnce. exact Hs.
Qed.

Lemma run_loadedOnce evs : forall s,
  loadedOnce s -> loadedOnce (run env s evs).
Proof.
  induction evs as [|ev evs IH]; intros s Hs; [done|].
  rewrite run_cons. apply IH. unfold step, drain.
  by apply runMicrotasks_loadedOnce, handle_loadedOnce.
Qed.

(** The same relation between the storage before and after holds across a
    handler as soon as [setTokens] and [clearTokens] keep it. *)
Lemma handle_localStorage (R : relation (gmap string string)) ev s :
  Reflexive R ->
  (forall a r s0, R (localStorage s0) (localStorage (setTokens env a r s0))) ->
  (forall s0, R (localStorage s0) (localStorage (clearTokens env s0))) ->
  R (localStorage s) (localStorage (handle env ev s)).
Proof.
  intros Hrefl Hset Hclear.
  destruct ev as [c cfg|c r|c resp|c a r|c e|c|a r| |]; cbn [handle].
  - done.
  - by destruct (inFlight s !! c).
  - destruct (inFlight s !! c) as [cfg|]; [|done]. unfold onRejected.
    cbn [config response].
    destruct (bool_decide (resp = Some 401) && negb (_retry cfg)).
    + destruct (negb (truthy _)).
      * unfold navigateToLogin. rewrite navigateTo_emit.
        cbn [localStorage emit].
        apply (Hclear (withInFlight (delete c (inFlight s)) s)).
      * by destruct (isRefreshing _).
    + by destruct (bool_decide (resp = None)
                   && negb (truthyCount (_retryCount cfg))).
  - destruct (takeRefresh c (refreshCalls s)) as [[rc rest]|]; [|done].
    unfold refreshSucceeded. rewrite processQueue_spec.
    cbn [localStorage withIsRefreshing apiClient enqueue emit withMicrotasks
         withFailedQueue].
    apply (Hset a r (withRefreshCalls rest s)).
  - destruct (takeRefresh c (refreshCalls s)) as [[rc rest]|]; [|done].
    unfold refreshFailed, navigateToLogin.
    rewrite navigateTo_emit, processQueue_spec.
    cbn [localStorage withIsRefreshing emit].
    apply (Hclear (withFailedQueue [] (withMicrotasks _ (withRefreshCalls rest s)))).
  - by destruct (timers s !! c).
  - apply Hset.
  - apply Hclear.
  - done.
Qed.

End Loading.

(** X3. Over the whole life of the module, whatever the outside delivers,
    [localStorage] is loaded at most once: [initialize] reads it on the
    first request and every later call returns at its first test. *)
Theorem storage_loaded_at_most_once (env : Env)
    (stored : gmap string string) (evs : list Event) :
  storageReads (trace (run env (initialState stored) evs)) <= 1.
Proof.
  pose proof (run_loadedOnce env evs (initialState stored)) as H.
  unfold loadedOnce in H.
  destruct (isInitialized (tokenManager (run env (initialState stored) evs))).
  - by apply H.
  - rewrite H; [lia|done].
Qed.

(** X4. Where there is no [window] (server-side rendering) the pipeline
    neither reads nor writes storage, whatever it is asked to do: the
    credentials live in memory only. *)
Theorem no_window_no_storage (env : Env) (s : State) (evs : list Event) :
  hasWindow env = false ->
  localStorage (run env s evs) = localStorage s /\
  storageReads (trace (run env s evs)) = storageReads (trace s).
Proof.
  intros Hw. split.
  - revert s. induction evs as [|ev evs IH]; intros s; [done|].
    rewrite run_cons, IH. unfold step, drain.
    rewrite runMicrotasks_localStorage. symmetry.
    apply (handle_localStorage env eq).
    + done.
    + intros a r s0. unfold setTokens. by rewrite Hw.
    + intros s0. unfold clearTokens. by rewrite Hw.
  - destruct (run_trace env evs s) as (new & -> & F).
    rewrite storageReads_append, (storageReads_none new); [lia|].
    eapply Forall_impl; [exact F|]. intros e He ->. cbn in He. congruence.
Qed.

(** A server: no [window]. *)
Lemma no_window_no_storage_witness :
  let server := mkEnv false false (fun _ _ _ => false) (fun _ _ => false)
                  "/login" in
  let evs := [SetTokens "A1" "R1"; Request 0 (get "/x"); ClearTokens] in
  localStorage (run server (initialState ∅) evs) =
    localStorage (initialState ∅) /\
  storageReads (trace (run server (initialState ∅) evs)) =
    storageReads (trace (initialState ∅)).
Proof.
  apply (no_window_no_storage
           (mkEnv false false (fun _ _ _ => false) (fun _ _ => false) "/login")
           (initialState ∅)
           [SetTokens "A1" "R1"; Request 0 (get "/x"); ClearTokens]).
  reflexivity.
Defined.

(** ** The store across page loads and calls *)

(** X5. In a browser whose storage works, the pair given to [setTokens]
    is what a new [TokenManager] holds after the next page load has run
    [initialize] - provided neither token is the empty string: an empty
    token is written but never loaded, and the new store stays null. *)
Theorem tokens_survive_reload (env : Env) (s : State) (a r : string) :
  hasWindow env = true ->
  getItemThrows env = false ->
  (forall l k v, setItemThrows env l k v = false) ->
  let s' := initialize env (reload (setTokens env a r s)) in
  (getAccessToken s', getRefreshToken s') =
  if truthy (Some a) && truthy (Some r) then (Some a, Some r)
  else (None, None).
Proof.
  intros Hw Hget Hset s'.
  destruct (setTokens_stores env a r s Hw Hset) as [Ha Hr].
  subst s'. unfold reload.
  rewrite (initialize_runs env (initialState _) Hw eq_refl eq_refl).
  unfold loadedPair. rewrite Hget.
  cbn [localStorage initialState getAccessToken getRefreshToken tokenManager
       withTokenManager accessToken refreshToken fst snd].
  rewrite Ha, Hr.
  by destruct (truthy (Some a) && truthy (Some r)).
Qed.

Lemma tokens_survive_reload_witness :
  let s' :=
    initialize browser (reload (setTokens browser "A1" "R1" (initialState ∅))) in
  (getAccessToken s', getRefreshToken s') =
  if truthy (Some "A1") && truthy (Some "R1") then (Some "A1", Some "R1")
  else (None, None).
Proof.
  apply (tokens_survive_reload browser (initialState ∅) "A1" "R1");
    reflexivity.
Defined.

(** X6. Where storage works the last call wins, in memory and in storage:
    [setTokens] after [setTokens] is the second one alone, and [clearTokens]
    after [setTokens] is [clearTokens] alone. *)
Theorem last_store_call_wins (env : Env) (s : State) (a1 r1 a2 r2 : string) :
  storageReliable env ->
  setTokens env a2 r2 (setTokens env a1 r1 s) = setTokens env a2 r2 s /\
  clearTokens env (setTokens env a1 r1 s) = clearTokens env s.
Proof.
  intros [Hset Hrm].
  destruct s as [[a r i p] ls nf ir fq rcs inf tim mt tr].
  unfold setTokens, clearTokens, setItem, removeItem.
  destruct (hasWindow env); [|done].
  cbn [tokenManager localStorage withTokenManager withLocalStorage].
  rewrite !Hset, ?Hrm.
  cbn [tokenManager localStorage withTokenManager withLocalStorage
       accessToken refreshToken isInitialized initPromise].
  rewrite ?Hset, ?Hrm. state_simpl.
  split; f_equal.
  - apply map_eq. intros k.
    destruct (decide (k = "refreshToken")) as [->|Hk1].
    { by rewrite !lookup_insert_eq. }
    rewrite !(lookup_insert_ne _ "refreshToken") by done.
    destruct (decide (k = "accessToken")) as [->|Hk2].
    { by rewrite !lookup_insert_eq. }
    by rewrite !lookup_insert_ne by done.
  - apply map_eq. intros k.
    destruct (decide (k = "refreshToken")) as [->|Hk1].
    { by rewrite !lookup_delete_eq. }
    rewrite !(lookup_delete_ne _ "refreshToken") by done.
    destruct (decide (k = "accessToken")) as [->|Hk2].
    { by rewrite !lookup_delete_eq. }
    rewrite !lookup_delete_ne by done.
    by rewrite !lookup_insert_ne by done.
Qed.

Lemma last_store_call_wins_witness :
  setTokens browser "A2" "R2" (setTokens browser "A1" "R1" (initialState ∅)) =
    setTokens browser "A2" "R2" (initialState ∅) /\
  clearTokens browser (setTokens browser "A1" "R1" (initialState ∅)) =
    clearTokens browser (initialState ∅).
Proof.
  apply (last_store_call_wins browser (initialState ∅) "A1" "R1" "A2" "R2").
  split; reflexivity.
Defined.

(** X7. [useCurrentUser] decides from storage, not from memory.  In a
    browser whose storage works its query is enabled after [setTokens] with
    a non-empty access token and disabled after [clearTokens]; without
    [window] it is never enabled, whatever the store holds in memory. *)
Theorem current_user_query_follows_storage (env : Env) (s : State)
    (a r : string) :
  (hasWindow env = true -> getItemThrows env = false ->
   storageReliable env ->
   currentUserEnabled env (setTokens env a r s) = truthy (Some a) /\
   currentUserEnabled env (clearTokens env s) = false) /\
  (hasWindow env = false -> currentUserEnabled env s = false).
Proof.
  unfold currentUserEnabled, exportedGetStoredTokens, getStoredTokens.
  split.
  - intros Hw Hget [Hset Hrm]. rewrite Hw, Hget. cbn [negb fst].
    destruct (setTokens_stores env a r s Hw Hset) as [-> _].
    destruct (clearTokens_removes env s Hw Hrm) as [-> _]. done.
  - intros ->. done.
Qed.

Lemma current_user_query_follows_storage_witness :
  (hasWindow browser = true -> getItemThrows browser = false ->
   storageReliable browser ->
   currentUserEnabled browser (setTokens browser "A1" "R1" (initialState ∅)) =
     truthy (Some "A1") /\
   currentUserEnabled browser (clearTokens browser (initialState ∅)) = false)
  /\ (hasWindow browser = false ->
      currentUserEnabled browser (initialState ∅) = false).
Proof.
  apply (current_user_query_follows_storage browser (initialState ∅)
           "A1" "R1").
Defined.

(** ** Answers that are handed over *)

(** X8. An error response with a status other than 401 is handed to the
    caller as it is, whatever marks the request carries: nothing is
    retried, no refresh call is posted, nobody is sent to the login page,
    and store, storage, coordinator and timers are as before. *)
Theorem http_error_passes_through (env : Env) (s : State) (c : CallId)
    (cfg : Config) (st : nat) :
  inFlight s !! c = Some cfg ->
  st <> 401 ->
  microtasks s = [] ->
  let s' := step env s (ResponseError c (Some st)) in
  effectsOf env s (ResponseError c (Some st)) =
    [Rejected c (AxiosErr (mkAxiosError (Some cfg) (Some st)))]
  /\ tokenManager s' = tokenManager s
  /\ localStorage s' = localStorage s
  /\ coordinator s' = coordinator s
  /\ timers s' = timers s
  /\ inFlight s' = delete c (inFlight s).
Proof.
  intros Hin Hst Hm s'.
  pose proof (step_http_error env s c cfg st Hin Hst Hm) as E. fold s' in E.
  repeat split; try (by rewrite E).
  - apply effectsOf_app. fold s'. by rewrite E.
  - unfold coordinator. rewrite E. state_proj.
    rewrite refreshPosts_app. cbn. by rewrite app_nil_r.
Qed.

Lemma http_error_passes_through_witness :
  let s' := step browser threeInFlight (ResponseError 1 (Some 500)) in
  effectsOf browser threeInFlight (ResponseError 1 (Some 500)) =
    [Rejected 1 (AxiosErr (mkAxiosError (Some (sent "A1" "/y")) (Some 500)))]
  /\ tokenManager s' = tokenManager threeInFlight
  /\ localStorage s' = localStorage threeInFlight
  /\ coordinator s' = coordinator threeInFlight
  /\ timers s' = timers threeInFlight
  /\ inFlight s' = delete 1 (inFlight threeInFlight).
Proof.
  apply (http_error_passes_through browser threeInFlight 1 (sent "A1" "/y")
           500).
  - vm_compute. reflexivity.
  - discriminate.
  - vm_compute. reflexivity.
Defined.

(** ** The first request of a page *)

(** X9. The first request after a page load, in a browser whose storage
    can be read: [initialize] loads storage before the header is attached.
    With a complete stored pair the request leaves with the stored access
    token as bearer and the store holds the pair; with a stored pair that
    lacks a value or has an empty one, nothing is loaded and the request
    leaves as the caller made it. *)
Theorem first_request_restores_session (env : Env)
    (stored : gmap string string) (c : CallId) (cfg : Config) :
  hasWindow env = true ->
  getItemThrows env = false ->
  let complete :=
    truthy (stored !! "accessToken") && truthy (stored !! "refreshToken") in
  let s' := step env (initialState stored) (Request c cfg) in
  let cfg' :=
    if complete
    then withAuthorization (bearer (default "" (stored !! "accessToken"))) cfg
    else cfg in
  effectsOf env (initialState stored) (Request c cfg) =
    [Invoke c cfg; StorageRead; Send c cfg']
  /\ (getAccessToken s', getRefreshToken s') =
     (if complete then (stored !! "accessToken", stored !! "refreshToken")
      else (None, None))
  /\ inFlight s' !! c = Some cfg'.
Proof.
  intros Hw Hget complete s' cfg'.
  set (s0 := emit (Invoke c cfg) (initialState stored)).
  assert (E : s' = dispatch env c cfg s0).
  { subst s' s0. unfold step. cbn [handle]. unfold apiClient.
    by rewrite drain_dispatch. }
  assert (Hinit : initialize env s0 =
    withTokenManager
      (mkTokenManager (loadedPair env s0).1 (loadedPair env s0).2 true
         (Some ()))
      (emit StorageRead s0)) by (by apply initialize_runs).
  assert (Hpair : loadedPair env s0 =
    if complete then (stored !! "accessToken", stored !! "refreshToken")
    else (None, None)).
  { unfold loadedPair. rewrite Hget. subst s0 complete. cbn.
    by destruct (truthy (stored !! "accessToken")
                 && truthy (stored !! "refreshToken")). }
  unfold dispatch, requestInterceptor in E. rewrite Hinit, Hpair in E.
  cbn [getAccessToken tokenManager withTokenManager accessToken] in E.
  assert (Hcfg : (if truthy (if complete
                             then (stored !! "accessToken",
                                   stored !! "refreshToken")
                             else (None, None)).1
                  then withAuthorization
                         (bearer (default ""
                            (if complete
                             then (stored !! "accessToken",
                                   stored !! "refreshToken")
                             else (None, None)).1)) cfg
                  else cfg) = cfg').
  { subst cfg'. destruct complete eqn:Hc; [|done]. cbn [fst].
    subst complete. apply andb_true_iff in Hc as [-> _]. done. }
  rewrite Hcfg in E.
  repeat split.
  - apply effectsOf_app. fold s'. rewrite E. subst s0.
    cbn [trace emit withInFlight withTokenManager initialState app]. done.
  - rewrite E. cbn [getAccessToken getRefreshToken tokenManager emit
                    withInFlight withTokenManager accessToken refreshToken].
    by destruct complete.
  - rewrite E. cbn [inFlight emit withInFlight]. apply lookup_insert_eq.
Qed.

Lemma first_request_restores_session_witness :
  let stored : gmap string string :=
    {["accessToken" := "A1"; "refreshToken" := "R1"]} in
  let complete :=
    truthy (stored !! "accessToken") && truthy (stored !! "refreshToken") in
  let s' := step browser (initialState stored) (Request 0 (get "/x")) in
  let cfg' :=
    if complete
    then withAuthorization (bearer (default "" (stored !! "accessToken")))
           (get "/x")
    else get "/x" in
  effectsOf browser (initialState stored) (Request 0 (get "/x")) =
    [Invoke 0 (get "/x"); StorageRead; Send 0 cfg']
  /\ (getAccessToken s', getRefreshToken s') =
     (if complete then (stored !! "accessToken", stored !! "refreshToken")
      else (None, None))
  /\ inFlight s' !! 0 = Some cfg'.
Proof.
  apply (first_request_restores_session browser
           {["accessToken" := "A1"; "refreshToken" := "R1"]} 0 (get "/x"));
    reflexivity.
Defined.

(** ** The two retry marks together *)

(** X10. The bound on the transport retry survives the refresh: a request
    that already used its one-second retry and is then replayed after a
    refresh, as the trigger or from the queue, still carries
    [_retryCount]; if the replay gets no response the caller is rejected
    with that error and no timer is started. *)
Theorem retry_bound_survives_refresh (env : Env) (s : State) (t : CallId)
    (treq : Config) (body a r : string) (c : CallId) (cfg : Config) :
  refreshCalls s = [mkRefreshCall t treq body] ->
  microtasks s = [] ->
  initDone env s = true ->
  a <> "" ->
  NoDup (t :: map entryCall (failedQueue s)) ->
  (c, cfg) ∈ (t, treq) :: map entryPair (failedQueue s) ->
  truthyCount (_retryCount cfg) = true ->
  let s' := step env s (RefreshOk t a r) in
  let cfg' := withAuthorization (bearer a) cfg in
  inFlight s' !! c = Some cfg'
  /\ effectsOf env s' (ResponseError c None) =
       [Rejected c (AxiosErr (mkAxiosError (Some cfg') None))]
  /\ timers (step env s' (ResponseError c None)) = timers s.
Proof.
  intros Hrc Hm Hd Hne Hnd Hin Hcount s' cfg'.
  pose proof (step_refresh_ok env s (mkRefreshCall t treq body) [] a r) as E.
  cbn [refreshCaller refreshRequest] in E.
  rewrite Hrc, take_single in E. specialize (E eq_refl Hm Hd Hne).
  cbv zeta in E. fold s' in E.
  assert (Hfl : inFlight s' !! c = Some cfg').
  { rewrite E. state_proj. apply insertAll_lookup.
    - rewrite map_map. cbn [map attach fst]. rewrite map_map.
      cbn [entryPair fst]. exact Hnd.
    - apply list_elem_of_In, in_map_iff. exists (c, cfg).
      split; [done|]. by apply list_elem_of_In. }
  assert (Hm' : microtasks s' = []) by (by rewrite E).
  pose proof (step_network_error_retried env s' c cfg' Hfl Hcount Hm') as E2.
  split; [exact Hfl|]. split.
  - apply effectsOf_app. by rewrite E2.
  - rewrite E2. state_proj. by rewrite E.
Qed.

Lemma retry_bound_survives_refresh_witness :
  let s := retriedThenUnauthorized in
  let cfg := markRetryCount (sent "A1" "/y") in
  let s' := step browser s (RefreshOk 0 "A2" "R2") in
  let cfg' := withAuthorization (bearer "A2") cfg in
  inFlight s' !! 1 = Some cfg'
  /\ effectsOf browser s' (ResponseError 1 None) =
       [Rejected 1 (AxiosErr (mkAxiosError (Some cfg') None))]
  /\ timers (step browser s' (ResponseError 1 None)) = timers s.
Proof.
  apply (retry_bound_survives_refresh browser retriedThenUnauthorized 0
           (markRetry (sent "A1" "/x")) "R1" "A2" "R2" 1
           (markRetryCount (sent "A1" "/y"))).
  - vm_compute. reflexivity.
  - vm_compute. reflexivity.
  - vm_compute. reflexivity.
  - discriminate.
  - apply (bool_decide_unpack (NoDup _)). vm_compute. exact I.
  - apply (bool_decide_unpack (_ ∈ _)). vm_compute. exact I.
  - reflexivity.
Defined.

(** ** The coordinator as a transition system *)

Section Transitions.

Variable env : Env.

Lemma takeRefresh_Forall (P : RefreshCall -> Prop) c l rc rest :
  takeRefresh c l = Some (rc, rest) -> Forall P l -> Forall P rest.
Proof.
  revert rc rest. induction l as [|x l IH]; intros rc rest H Hall; [done|].
  apply Forall_cons in Hall as [Hx Hall].
  cbn [takeRefresh] in H. case_bool_decide.
  - by simplify_eq.
  - destruct (takeRefresh c l) as [[r0 l']|] eqn:Ht; [|done].
    simplify_eq. apply Forall_cons. split; [done|]. by eapply IH.
Qed.

(** One step moves the coordinator in one of four ways: not at all; a
    request not marked [_retry] joins the queue behind a refresh under
    way; a refresh call with a non-empty token is started for a request
    that is marked at that moment; the refresh call ends and the queue is
    emptied. *)
Lemma step_coordinator_cases s ev :
  coordinator (step env s ev) = coordinator s
  \/ (exists c req,
        _retry req = false /\ isRefreshing s = true /\
        coordinator (step env s ev) =
        (true, failedQueue s ++ [mkEntry c req], refreshCalls s,
         refreshPosts (trace s)))
  \/ (exists c req tok,
        tok <> "" /\ isRefreshing s = false /\
        coordinator (step env s ev) =
        (true, failedQueue s,
         refreshCalls s ++ [mkRefreshCall c (markRetry req) tok],
         refreshPosts (trace s) ++ [tok]))
  \/ (exists c rc rest,
        takeRefresh c (refreshCalls s) = Some (rc, rest) /\
        coordinator (step env s ev) =
        (false, [], rest, refreshPosts (trace s))).
Proof.
  assert (Hsettle : forall c o,
    coordinator (step env s (settle c o)) = coordinator s \/
    exists c0 rc rest,
      takeRefresh c0 (refreshCalls s) = Some (rc, rest) /\
      coordinator (step env s (settle c o)) =
      (false, [], rest, refreshPosts (trace s))).
  { intros c o.
    destruct (takeRefresh c (refreshCalls s)) as [[rc rest]|] eqn:Ht.
    - right. exists c, rc, rest. split; [done|].
      destruct (takeRefresh_caller _ _ _ _ Ht) as [<- _].
      by apply settle_coordinator.
    - left. rewrite step_coordinator.
      destruct o; cbn [settle handle]; by rewrite Ht. }
  destruct ev as [c cfg|c r|c resp|c a r|c e|c|a r| |].
  - left. rewrite step_coordinator. cbn [handle]. unfold apiClient, enqueue.
    change (coordinator (withMicrotasks ?m ?s0)) with (coordinator s0).
    by rewrite emit_coordinator.
  - left. rewrite step_coordinator. cbn [handle].
    destruct (inFlight s !! c); [|done]. by rewrite emit_coordinator.
  - rewrite step_coordinator. cbn [handle].
    destruct (inFlight s !! c) as [cfg|]; [|by left].
    unfold onRejected. cbn [config response].
    destruct (bool_decide (resp = Some 401)) eqn:H401; cbn [andb].
    + destruct (_retry cfg) eqn:Hr; cbn [negb].
      * left. rewrite bool_decide_eq_false_2; [|by case_bool_decide; simplify_eq].
        cbn [andb]. by rewrite emit_coordinator.
      * change (getRefreshToken (withInFlight ?m s)) with (getRefreshToken s).
        destruct (truthy (getRefreshToken s)) eqn:Htok; cbn [negb].
        -- change (isRefreshing (withInFlight ?m s)) with (isRefreshing s).
           destruct (isRefreshing s) eqn:Hflag.
           ++ right. left. exists c, cfg. split; [done|]. split; [done|].
              unfold coordinator. cbn. by rewrite Hflag.
           ++ right. right. left.
              exists c, cfg, (default "" (getRefreshToken s)).
              split; [by apply truthy_nonempty|]. split; [done|].
              unfold coordinator. cbn. by rewrite refreshPosts_app.
        -- left. rewrite emit_coordinator by done. unfold navigateToLogin.
           rewrite navigateTo_emit, emit_coordinator by done.
           by rewrite clearTokens_coordinator.
    + left.
      destruct (bool_decide (resp = None)
                && negb (truthyCount (_retryCount cfg)));
        by rewrite emit_coordinator.
  - destruct (Hsettle c (Renewed a r)) as [H|H]; [by left|].
    right. right. by right.
  - destruct (Hsettle c (Failed e)) as [H|H]; [by left|].
    right. right. by right.
  - left. rewrite step_coordinator. cbn [handle].
    destruct (timers s !! c); [|done]. unfold apiClient, enqueue.
    change (coordinator (withMicrotasks ?m ?s0)) with (coordinator s0).
    by rewrite emit_coordinator.
  - left. rewrite step_coordinator. apply setTokens_coordinator.
  - left. rewrite step_coordinator. apply clearTokens_coordinator.
  - left. by rewrite step_coordinator.
Qed.

Lemma step_marksOk s ev : marksOk s -> marksOk (step env s ev).
Proof.
  intros [Hq Hc].
  destruct (step_coordinator_cases s ev)
    as [H|[(c & req & Hr & _ & H)|[(c & req & tok & Hne & _ & H)
                                  |(c & rc & rest & Ht & H)]]];
    unfold coordinator in H; injection H as _ Hfq Hrc _;
    unfold marksOk; rewrite Hfq, Hrc.
  - done.
  - split; [|done]. apply Forall_app. split; [done|].
    by apply Forall_singleton.
  - split; [done|]. apply Forall_app. split; [done|].
    by apply Forall_singleton.
  - split; [done|]. by eapply takeRefresh_Forall.
Qed.

End Transitions.

(** X11. Whatever the outside delivers, every request waiting in
    [failedQueue] is unmarked ([_retry] not set), and every outstanding
    refresh call belongs to a request that is marked and carries a
    non-empty refresh token. *)
Theorem marks_of_waiting_requests (env : Env) (stored : gmap string string)
    (evs : list Event) :
  marksOk (run env (initialState stored) evs).
Proof.
  assert (H : forall s, marksOk s -> marksOk (run env s evs)).
  { induction evs as [|ev evs IH]; intros s Hs; [done|].
    rewrite run_cons. apply IH. by apply step_marksOk. }
  apply H. by split.
Qed.

(** ** Navigation *)

Section Navigation.

Variable env : Env.

Lemma navigations_jobs new :
  Forall (jobEffect env) new -> navigations new = [].
Proof.
  induction 1 as [|e new He _ IH]; [done|].
  destruct e; cbn in *; done.
Qed.

Lemma effects_split s ev n1 :
  trace (handle env ev s) = trace s ++ n1 ->
  exists n2,
    effectsOf env s ev = n1 ++ n2 /\ Forall (jobEffect env) n2.
Proof.
  intros H1.
  destruct (runMicrotasks_trace env (jobsWeight (microtasks (handle env ev s)))
              (handle env ev s)) as (n2 & H2 & F2).
  exists n2. split; [|done]. apply effectsOf_app.
  unfold step, drain. by rewrite H2, H1, <- app_assoc.
Qed.

Lemma effects_quiet s ev n1 :
  trace (handle env ev s) = trace s ++ n1 ->
  navigations n1 = [] ->
  navigations (effectsOf env s ev) = [].
Proof.
  intros H1 Hn. destruct (effects_split s ev n1 H1) as (n2 & -> & F2).
  by rewrite navigations_app, Hn, (navigations_jobs n2).
Qed.

(** A step either sends nobody anywhere, or sends the user to the
    unauthorized redirect once, with the store cleared. *)
Lemma step_navigates s ev :
  microtasks s = [] ->
  navigations (effectsOf env s ev) = [] \/
  (navigations (effectsOf env s ev) = [unauthorizedRedirect env] /\
   getAccessToken (step env s ev) = None /\
   getRefreshToken (step env s ev) = None /\
   localStorage (step env s ev) = localStorage (clearTokens env s)).
Proof.
  intros Hm.
  assert (Hsame : handle env ev s = s ->
                  navigations (effectsOf env s ev) = []).
  { intros Hh. apply (effects_quiet s ev []); [|done].
    by rewrite Hh, app_nil_r. }
  destruct ev as [c cfg|c r|c resp|c a r|c e|c|a r| |].
  - left. by apply (effects_quiet _ _ [Invoke c cfg]).
  - left. cbn [handle] in Hsame |- *.
    destruct (inFlight s !! c) eqn:Hin; [|by apply Hsame].
    apply (effects_quiet _ _ [Resolved c r]); [|done].
    cbn [handle]. by rewrite Hin.
  - destruct (inFlight s !! c) as [cfg|] eqn:Hin.
    2:{ left. apply Hsame. cbn [handle]. by rewrite Hin. }
    destruct resp as [st|].
    + destruct (decide (st = 401)) as [->|Hst].
      * destruct (_retry cfg) eqn:Hr.
        { left. rewrite (effectsOf_app env s _ _
            (f_equal trace (step_unauthorized_retried env s c cfg Hin Hr Hm))).
          done. }
        destruct (truthy (getRefreshToken s)) eqn:Htok.
        -- left. destruct (isRefreshing s) eqn:Hflag.
           ++ pose proof (step_unauthorized_queued env s c cfg
                            Hin Hr Htok Hflag Hm) as E.
              unfold effectsOf. rewrite E. state_proj.
              by rewrite drop_all.
           ++ destruct (getRefreshToken s) as [tok|] eqn:Hg; [|done].
              assert (Hne : tok <> "") by (by destruct tok).
              rewrite (effectsOf_app env s _ _
                (f_equal trace (step_unauthorized_first env s c cfg tok
                                  Hin Hr Hg Hne Hflag Hm))).
              done.
        -- right.
           pose proof (step_unauthorized_no_token env s c cfg
                         Hin Hr Htok Hm) as E.
           rewrite (effectsOf_app env s _ _ (f_equal trace E)).
           split; [done|]. by rewrite E.
      * left. rewrite (effectsOf_app env s _ _
          (f_equal trace (step_http_error env s c cfg st Hin Hst Hm))).
        done.
    + left. destruct (truthyCount (_retryCount cfg)) eqn:Hcount.
      * rewrite (effectsOf_app env s _ _
          (f_equal trace (step_network_error_retried env s c cfg
                            Hin Hcount Hm))).
        done.
      * rewrite (effectsOf_app env s _ _
          (f_equal trace (step_network_error env s c cfg Hin Hcount Hm))).
        done.
  - left. cbn [handle] in Hsame |- *.
    destruct (takeRefresh c (refreshCalls s)) as [[rc rest]|] eqn:Ht;
      [|by apply Hsame].
    apply (effects_quiet _ _
             [Invoke (refreshCaller rc)
                (withAuthorization (bearer a) (refreshRequest rc))]);
      [|done].
    cbn [handle]. rewrite Ht. unfold refreshSucceeded.
    rewrite processQueue_spec.
    cbn [trace withIsRefreshing apiClient enqueue emit withMicrotasks
         withFailedQueue].
    by rewrite setTokens_trace.
  - cbn [handle] in Hsame.
    destruct (takeRefresh c (refreshCalls s)) as [[rc rest]|] eqn:Ht;
      [|left; by apply Hsame].
    right. destruct (takeRefresh_caller _ _ _ _ Ht) as [<- _].
    pose proof (step_refresh_error env s rc rest e Ht Hm) as E.
    rewrite (effectsOf_app env s _ _ (f_equal trace E)).
    split.
    + rewrite navigations_app, navigations_rejected. done.
    + by rewrite E.
  - left. cbn [handle] in Hsame |- *.
    destruct (timers s !! c) as [cfg|] eqn:Ht; [|by apply Hsame].
    apply (effects_quiet _ _ [Invoke c cfg]); [|done].
    cbn [handle]. by rewrite Ht.
  - left. apply (effects_quiet _ _ []); [|done].
    cbn [handle]. by rewrite setTokens_trace, app_nil_r.
  - left. apply (effects_quiet _ _ []); [|done].
    cbn [handle]. by rewrite clearTokens_trace, app_nil_r.
  - left. apply (effects_quiet _ _ []); [|done].
    cbn [handle trace withNavigateFunction]. by rewrite app_nil_r.
Qed.

End Navigation.

(** X12. The pipeline sends the user to the login page only together with
    a cleared store: in any step that navigates there is exactly one
    navigation, to the unauthorized redirect, and after the step both
    getters are null and storage is what [clearTokens] leaves. *)
Theorem navigation_only_with_cleared_store (env : Env) (s : State)
    (ev : Event) :
  microtasks s = [] ->
  navigations (effectsOf env s ev) <> [] ->
  navigations (effectsOf env s ev) = [unauthorizedRedirect env] /\
  getAccessToken (step env s ev) = None /\
  getRefreshToken (step env s ev) = None /\
  localStorage (step env s ev) = localStorage (clearTokens env s).
Proof.
  intros Hm Hnav. by destruct (step_navigates env s ev Hm) as [H|H].
Qed.

Lemma navigation_only_with_cleared_store_witness :
  let s := threeUnauthorized in
  let ev := RefreshError 0 (AxiosErr (mkAxiosError None (Some 400))) in
  navigations (effectsOf browser s ev) = [unauthorizedRedirect browser] /\
  getAccessToken (step browser s ev) = None /\
  getRefreshToken (step browser s ev) = None /\
  localStorage (step browser s ev) = localStorage (clearTokens browser s).
Proof.
  apply (navigation_only_with_cleared_store browser threeUnauthorized
           (RefreshError 0 (AxiosErr (mkAxiosError None (Some 400))))).
  - vm_compute. reflexivity.
  - vm_compute. discriminate.
Defined.

(** ** No caller is lost *)

Section Accounting.

Variable env : Env.

(** How often caller [x] is waiting or settled in [s]. *)
Local Abbreviation occ s x :=
  (count_occ Nat.eq_dec (waiting s ++ settled (trace s)) x).

Local Abbreviation cnt l x := (count_occ Nat.eq_dec l x).

Lemma accounted_count s ids :
  accounted s ids <-> forall x, occ s x = cnt ids x.
Proof. apply (Permutation_count_occ Nat.eq_dec). Qed.

Lemma cnt_keys_insert (m : gmap CallId Config) c v x :
  m !! c = None ->
  cnt (map_to_list (<[c:=v]> m)).*1 x = cnt (c :: (map_to_list m).*1) x.
Proof.
  intros Hc. apply (Permutation_count_occ Nat.eq_dec).
  by rewrite map_to_list_insert.
Qed.

Lemma cnt_keys_delete (m : gmap CallId Config) c v x :
  m !! c = Some v ->
  cnt (c :: (map_to_list (delete c m)).*1) x = cnt (map_to_list m).*1 x.
Proof.
  intros Hc. apply (Permutation_count_occ Nat.eq_dec).
  by rewrite <- (map_to_list_delete m c v Hc).
Qed.

Lemma cnt_keys_absent (m : gmap CallId Config) c :
  cnt (map_to_list m).*1 c = 0 -> m !! c = None.
Proof.
  intros H. apply count_occ_not_In in H.
  destruct (m !! c) as [v|] eqn:Hc; [|done].
  exfalso. apply H. apply list_elem_of_In, list_elem_of_fmap.
  exists (c, v). split; [done|]. by apply elem_of_map_to_list.
Qed.

Lemma cnt_keys_present (m : gmap CallId Config) c v :
  m !! c = Some v -> 1 <= cnt (map_to_list m).*1 c.
Proof.
  intros Hc. rewrite <- (cnt_keys_delete m c v c Hc).
  simpl. destruct (Nat.eq_dec c c); [lia|done].
Qed.

Lemma cnt_snoc (l : list CallId) c x : cnt (l ++ [c]) x = cnt (c :: l) x.
Proof.
  unfold CallId in *.
  rewrite count_occ_app. simpl. destruct (Nat.eq_dec c x); lia.
Qed.

Lemma settled_app tr1 tr2 : settled (tr1 ++ tr2) = settled tr1 ++ settled tr2.
Proof. apply omap_app. Qed.

Lemma cnt_takeRefresh c l rc rest x :
  takeRefresh c l = Some (rc, rest) ->
  cnt (map refreshCaller l) x = cnt (c :: map refreshCaller rest) x.
Proof.
  revert rc rest. induction l as [|r0 l IH]; intros rc rest H; [done|].
  cbn [takeRefresh] in H. case_bool_decide as Hc.
  - simplify_eq. done.
  - destruct (takeRefresh c l) as [[r1 l']|] eqn:Ht; [|done].
    simplify_eq. specialize (IH _ _ eq_refl).
    simpl in *. unfold CallId in *.
    destruct (Nat.eq_dec (refreshCaller r0) x), (Nat.eq_dec c x); lia.
Qed.

Lemma jobCall_settleJob error token q :
  map jobCall (map (settleJob error token) q) = map entryCall q.
Proof. rewrite map_map. apply map_ext. intros e. by destruct error. Qed.

Lemma settled_jobs new :
  Forall (fun e => match e with
                   | Resolved _ _ | Rejected _ _ => False
                   | _ => True
                   end) new ->
  settled new = [].
Proof.
  induction 1 as [|e new He _ IH]; [done|]. destruct e; cbn in *; done.
Qed.

Lemma occ_eq s x :
  occ s x =
  cnt (map jobCall (microtasks s)) x
  + (cnt (map_to_list (inFlight s)).*1 x
     + (cnt (map_to_list (timers s)).*1 x
        + (cnt (map entryCall (failedQueue s)) x
           + (cnt (map refreshCaller (refreshCalls s)) x
              + cnt (settled (trace s)) x)))).
Proof. unfold waiting, CallId. rewrite !count_occ_app. lia. Qed.

(** [initialize] moves no caller. *)
Lemma initialize_occ s x : occ (initialize env s) x = occ s x.
Proof.
  destruct (initialize_cases env s) as [->|(_ & _ & ->)]; [done|].
  rewrite !occ_eq. state_destruct s. state_simpl.
  rewrite settled_app. cbn [settled omap list_omap]. by rewrite app_nil_r.
Qed.

Lemma initialize_inFlight s : inFlight (initialize env s) = inFlight s.
Proof. by destruct (initialize_frame env s) as (_ & _ & _ & -> & _). Qed.

(** A job moves its caller from the job queue to the transport, to a later
    job, or settles it. *)
Lemma runMicrotask_occ m rest s x :
  microtasks s = m :: rest ->
  (forall y, occ s y <= 1) ->
  occ (runMicrotask env m (withMicrotasks rest s)) x = occ s x.
Proof.
  intros Hm Hle. destruct m as [c req tok|c err|c cfg]; unfold runMicrotask.
  - unfold replayThen. rewrite !occ_eq. state_destruct s. state_simpl.
    subst mt. rewrite map_app, settled_app. cbn [map jobCall settled omap list_omap].
    rewrite app_nil_r, cnt_snoc. done.
  - rewrite !occ_eq. state_destruct s. state_simpl.
    subst mt. rewrite settled_app. cbn [map jobCall settled omap list_omap].
    rewrite cnt_snoc. simpl. unfold CallId in *.
    destruct (Nat.eq_dec c x); lia.
  - assert (Hc : inFlight s !! c = None).
    { apply cnt_keys_absent. specialize (Hle c). rewrite occ_eq, Hm in Hle.
      cbn [map jobCall] in Hle. simpl in Hle. unfold CallId in *.
      destruct (Nat.eq_dec c c); [lia|done]. }
    unfold dispatch, requestInterceptor.
    set (s0 := withMicrotasks rest s).
    set (cfg1 := if truthy _ then _ else _). clearbody cfg1.
    pose proof (initialize_occ s0 x) as Hocc.
    pose proof (initialize_inFlight s0) as Hin.
    rewrite !occ_eq in Hocc. rewrite !occ_eq.
    destruct (initialize env s0) as [tm1 ls1 nf1 ir1 fq1 rcs1 inf1 tim1 mt1 tr1].
    subst s0. state_destruct s. revert Hocc Hin. state_simpl.
    intros Hocc Hin. subst mt inf1.
    rewrite settled_app. cbn [settled omap list_omap]. rewrite app_nil_r.
    rewrite (cnt_keys_insert _ _ _ _ Hc).
    cbn [map jobCall]. simpl. simpl in Hocc. unfold CallId in *.
    destruct (Nat.eq_dec c x); lia.
Qed.

Lemma runMicrotasks_occ fuel s x :
  (forall y, occ s y <= 1) ->
  occ (runMicrotasks env fuel s) x = occ s x.
Proof.
  revert s. induction fuel as [|fuel IH]; intros s Hle; [done|].
  cbn [runMicrotasks]. destruct (microtasks s) as [|m rest] eqn:Hm; [done|].
  rewrite IH; [by apply runMicrotask_occ|].
  intros y. by rewrite (runMicrotask_occ m rest s y Hm Hle).
Qed.

(** The rejected handler keeps its caller: it is settled, queued, put
    behind a new refresh call, or put on the timer. *)
Lemma onRejected_occ c error s x :
  timers s !! c = None ->
  occ (onRejected env c error s) x = occ s x + cnt [c] x.
Proof.
  intros Hc. unfold onRejected. destruct (config error) as [req|].
  2:{ rewrite !occ_eq. state_destruct s. state_simpl.
      rewrite settled_app. cbn [settled omap list_omap]. rewrite cnt_snoc.
      simpl. unfold CallId in *. destruct (Nat.eq_dec c x); lia. }
  destruct (bool_decide (response error = Some 401) && negb (_retry req)).
  - destruct (truthy (getRefreshToken s)); cbn [negb].
    + destruct (isRefreshing s).
      * rewrite !occ_eq. state_destruct s. state_simpl.
        rewrite map_app. cbn [map entryCall]. rewrite cnt_snoc.
        simpl. unfold CallId in *. destruct (Nat.eq_dec c x); lia.
      * rewrite !occ_eq. state_destruct s. state_simpl.
        rewrite map_app, settled_app. cbn [map refreshCaller settled omap list_omap].
        rewrite app_nil_r, cnt_snoc.
        simpl. unfold CallId in *. destruct (Nat.eq_dec c x); lia.
    + unfold navigateToLogin. rewrite navigateTo_emit, clearTokens_frame.
      rewrite !occ_eq. state_destruct s. state_simpl.
      rewrite !settled_app. cbn [settled omap list_omap]. rewrite app_nil_r, cnt_snoc.
      simpl. unfold CallId in *. destruct (Nat.eq_dec c x); lia.
  - destruct (bool_decide (response error = None)
              && negb (truthyCount (_retryCount req))).
    + rewrite !occ_eq. state_destruct s. state_simpl.
      rewrite settled_app. cbn [settled omap list_omap].
      rewrite app_nil_r, (cnt_keys_insert _ _ _ _ Hc).
      simpl. unfold CallId in *. destruct (Nat.eq_dec c x); lia.
    + rewrite !occ_eq. state_destruct s. state_simpl.
      rewrite settled_app. cbn [settled omap list_omap]. rewrite cnt_snoc.
      simpl. unfold CallId in *. destruct (Nat.eq_dec c x); lia.
Qed.

Ltac count_callers :=
  simpl; unfold CallId in *;
  repeat match goal with
         | |- context [Nat.eq_dec ?a ?b] => destruct (Nat.eq_dec a b)
         end;
  try lia.

(** A handler moves the caller it is about, and adds the caller of a new
    request. *)
Lemma handle_occ ev s x :
  (forall y, occ s y <= 1) ->
  occ (handle env ev s) x = occ s x + cnt (requests [ev]) x.
Proof.
  intros Hle.
  destruct ev as [c cfg|c r|c resp|c a r|c e|c|a r| |]; cbn [handle].
  - rewrite !occ_eq. state_destruct s. state_simpl.
    rewrite map_app, settled_app. cbn [map jobCall settled omap list_omap].
    rewrite app_nil_r, cnt_snoc. cbn [requests omap list_omap].
    count_callers.
  - destruct (inFlight s !! c) as [cfg|] eqn:Hc; [|by rewrite Nat.add_0_r].
    rewrite !occ_eq. state_destruct s. state_simpl.
    rewrite settled_app. cbn [settled omap list_omap].
    rewrite cnt_snoc, <- (cnt_keys_delete inf c cfg x Hc).
    cbn [requests omap list_omap]. count_callers.
  - destruct (inFlight s !! c) as [cfg|] eqn:Hc; [|by rewrite Nat.add_0_r].
    assert (Htim : timers s !! c = None).
    { apply cnt_keys_absent. specialize (Hle c). rewrite occ_eq in Hle.
      pose proof (cnt_keys_present _ _ _ Hc). unfold CallId in *. lia. }
    rewrite onRejected_occ by done.
    rewrite !occ_eq. state_destruct s. state_simpl.
    rewrite <- (cnt_keys_delete inf c cfg x Hc).
    cbn [requests omap list_omap]. count_callers.
  - destruct (takeRefresh c (refreshCalls s)) as [[rc rest]|] eqn:Ht;
      [|by rewrite Nat.add_0_r].
    destruct (takeRefresh_caller _ _ _ _ Ht) as [Hrc _].
    unfold refreshSucceeded. rewrite processQueue_spec, setTokens_frame.
    rewrite !occ_eq. state_destruct s. state_simpl.
    rewrite !map_app, jobCall_settleJob, settled_app.
    cbn [map jobCall settled omap list_omap].
    rewrite app_nil_r, cnt_snoc, (cnt_takeRefresh _ _ _ _ x Ht), Hrc.
    cbn [requests omap list_omap]. simpl. rewrite !count_occ_app.
    count_callers.
  - destruct (takeRefresh c (refreshCalls s)) as [[rc rest]|] eqn:Ht;
      [|by rewrite Nat.add_0_r].
    destruct (takeRefresh_caller _ _ _ _ Ht) as [Hrc _].
    unfold refreshFailed, navigateToLogin.
    rewrite navigateTo_emit, clearTokens_frame, processQueue_spec.
    rewrite !occ_eq. state_destruct s. state_simpl.
    rewrite !map_app, jobCall_settleJob, !settled_app.
    cbn [map jobCall settled omap list_omap].
    rewrite app_nil_r, cnt_snoc, (cnt_takeRefresh _ _ _ _ x Ht), Hrc.
    cbn [requests omap list_omap]. simpl. rewrite !count_occ_app.
    count_callers.
  - destruct (timers s !! c) as [cfg|] eqn:Hc; [|by rewrite Nat.add_0_r].
    rewrite !occ_eq. state_destruct s. state_simpl.
    rewrite map_app, settled_app. cbn [map jobCall settled omap list_omap].
    rewrite app_nil_r, cnt_snoc, <- (cnt_keys_delete tim c cfg x Hc).
    cbn [requests omap list_omap]. count_callers.
  - rewrite setTokens_frame, !occ_eq. state_destruct s. state_simpl.
    cbn [requests omap list_omap]. count_callers.
  - rewrite clearTokens_frame, !occ_eq. state_destruct s. state_simpl.
    cbn [requests omap list_omap]. count_callers.
  - rewrite !occ_eq. state_destruct s. state_simpl.
    cbn [requests omap list_omap]. count_callers.
Qed.

Lemma step_occ ev s x :
  (forall y, occ s y + cnt (requests [ev]) y <= 1) ->
  occ (step env s ev) x = occ s x + cnt (requests [ev]) x.
Proof.
  intros Hle.
  assert (Hs : forall y, occ s y <= 1).
  { intros y. specialize (Hle y). lia. }
  unfold step, drain. rewrite runMicrotasks_occ; [by apply handle_occ|].
  intros y. rewrite handle_occ by done. apply Hle.
Qed.

Lemma requests_cons ev evs : requests (ev :: evs) = requests [ev] ++ requests evs.
Proof. by destruct ev. Qed.

Lemma run_accounted evs s ids :
  accounted s ids ->
  NoDup (ids ++ requests evs) ->
  accounted (run env s evs) (ids ++ requests evs).
Proof.
  revert s ids. induction evs as [|ev evs IH]; intros s ids Hs Hnd.
  { cbn. by rewrite app_nil_r. }
  rewrite requests_cons, app_assoc in *. cbn [run foldl].
  apply IH; [|done].
  apply accounted_count. intros x.
  pose proof (proj1 (accounted_count s ids) Hs) as Hocc.
  unfold CallId in *.
  rewrite (count_occ_app _ ids), <- Hocc. apply step_occ.
  intros y. rewrite Hocc, <- (count_occ_app _ ids).
  apply NoDup_app in Hnd as [Hnd _].
  apply NoDup_ListNoDup in Hnd.
  by apply (proj1 (NoDup_count_occ Nat.eq_dec _)).
Qed.

End Accounting.

(** X13. When the callers use call ids of their own, every request asked
    for so far is in exactly one place: waiting in a promise job, at the
    transport, on the retry timer, in the queue of failed requests or
    behind its refresh call, or settled, once.  No request is dropped and
    no promise is settled twice. *)
Theorem no_caller_lost_or_settled_twice env stored evs :
  NoDup (requests evs) ->
  accounted (run env (initialState stored) evs) (requests evs).
Proof.
  intros Hnd. apply (run_accounted env evs (initialState stored) []); [|done].
  unfold accounted, waiting. cbn. by rewrite map_to_list_empty.
Qed.

Lemma no_caller_lost_or_settled_twice_witness :
  NoDup (requests [Request 0 (get "/x"); Request 1 (get "/y");
                   ResponseError 0 (Some 401); ResponseOk 1 (mkResponse 200 "ok")])
  /\ accounted
       (run browser (initialState ∅)
          [Request 0 (get "/x"); Request 1 (get "/y");
           ResponseError 0 (Some 401); ResponseOk 1 (mkResponse 200 "ok")])
       (requests [Request 0 (get "/x"); Request 1 (get "/y");
                  ResponseError 0 (Some 401); ResponseOk 1 (mkResponse 200 "ok")]).
Proof.
  split.
  - apply (bool_decide_unpack (NoDup _)). vm_compute. reflexivity.
  - apply (no_caller_lost_or_settled_twice browser ∅).
    apply (bool_decide_unpack (NoDup _)). vm_compute. reflexivity.
Defined.

(** ** The redirect paths *)

Lemma orElse_nonempty a b :
  b <> "" -> auth_config.orElse id a b <> "".
Proof. intros Hb. by destruct a as [[|]|]. Qed.

Lemma navigations_Forall (P : string -> Prop) env tr :
  Forall (effectOk env) tr ->
  P (unauthorizedRedirect env) ->
  Forall P (navigations tr).
Proof.
  intros Htr HP. induction Htr as [|e tr He _ IH]; [by apply Forall_nil_2|].
  destruct e; cbn in *; try done. subst. by apply Forall_cons.
Qed.

Lemma auth_config_paths hasWindow processEnv :
  auth_config.unauthorizedRedirect
    (auth_config.AUTH_CONFIG hasWindow processEnv) <> "".
Proof.
  unfold auth_config.AUTH_CONFIG, auth_config.getAuthConfigFromEnv.
  destruct hasWindow; cbn; [done|]. by apply orElse_nonempty.
Qed.

(** X14. Whatever the environment variables hold, and on the server as in
    the browser, no redirect path of [AUTH_CONFIG] is empty: a missing or
    empty variable gives the default.  In the browser the variables are not
    read at all. *)
Theorem auth_config_redirects_never_empty hasWindow processEnv :
  auth_config.loginRedirect (auth_config.AUTH_CONFIG hasWindow processEnv)
  <> "" /\
  auth_config.logoutRedirect (auth_config.AUTH_CONFIG hasWindow processEnv)
  <> "" /\
  auth_config.unauthorizedRedirect
    (auth_config.AUTH_CONFIG hasWindow processEnv) <> "" /\
  (exists p,
     auth_config.registerRedirect
       (auth_config.AUTH_CONFIG hasWindow processEnv) = Some p /\ p <> "") /\
  auth_config.AUTH_CONFIG true processEnv = auth_config.DEFAULT_AUTH_CONFIG.
Proof.
  unfold auth_config.AUTH_CONFIG, auth_config.getAuthConfigFromEnv.
  destruct hasWindow; cbn.
  { repeat split; try done. by eexists. }
  repeat split; try (by apply orElse_nonempty).
  destruct (processEnv "NEXT_PUBLIC_REGISTER_REDIRECT") as [[|c r]|]; cbn;
    by eexists.
Qed.

(** X15. With the redirect path taken from [AUTH_CONFIG], every navigation
    the pipeline does goes to a non-empty path, and in the browser to
    [/login], whatever the environment variables hold. *)
Theorem navigation_paths_from_auth_config processEnv env stored evs :
  Forall
    (fun p => p <> "" /\ (hasWindow env = true -> p = "/login"))
    (navigations
       (trace (run (withAuthConfig processEnv env) (initialState stored) evs))).
Proof.
  destruct (run_trace (withAuthConfig processEnv env) evs (initialState stored))
    as (new & -> & Hnew).
  cbn [trace initialState app].
  apply (navigations_Forall _ _ _ Hnew).
  cbn [unauthorizedRedirect withAuthConfig hasWindow]. split.
  - apply auth_config_paths.
  - by intros ->.
Qed.

(** ** Error messages *)

Section ErrorMessages.

Import error_guards.

Lemma statusMessage_nonempty status : statusMessage status <> "".
Proof. unfold statusMessage. repeat case_bool_decide; done. Qed.

Lemma join_empty errs :
  join ", " (map msg errs) = "" <->
  errs = [] \/ errs = [mkValidationError ""].
Proof.
  destruct errs as [|[m] [|e2 errs]]; cbn.
  - split; [by left|done].
  - split; [intros ->; by right|]. intros [?|?]; by simplify_eq.
  - split; [|intros [?|?]; done]. destruct m; done.
Qed.

Lemma dataMessageOf_empty d :
  dataMessageOf d = Some "" <->
  detail d = DetailString "" \/ detail d = DetailArray [] \/
  detail d = DetailArray [mkValidationError ""].
Proof.
  unfold dataMessageOf. destruct (detail d) as [|s|errs].
  - split; [|intros [?|[?|?]]; done]. by destruct (dataMessage d) as [[|]|].
  - split; [intros [= ->]; by left|]. intros [[= ->]|[?|?]]; done.
  - split.
    + intros [= H]. apply join_empty in H as [->| ->]; auto.
    + intros [?|[[= ->]|[= ->]]]; done.
Qed.

(** X16. [getErrorMessage] gives the empty string in two cases only: the
    thrown value is the empty string, or the error carries a response whose
    data has an empty [detail] (the empty string, an empty array, or one
    validation error with an empty [msg]).  In every other case the message
    has text. *)
Theorem getErrorMessage_empty_cases error :
  getErrorMessage error = "" <->
  error = StringValue "" \/
  exists e b r d,
    error = WithMessage e b /\ response e = Some r /\ data r = Some d /\
    (detail d = DetailString "" \/ detail d = DetailArray [] \/
     detail d = DetailArray [mkValidationError ""]).
Proof.
  destruct error as [e b| |s|]; cbn.
  - assert (Hfb : (if bool_decide (message e = "")
                   then "An unexpected error occurred" else message e) <> "").
    { by case_bool_decide. }
    destruct (response e) as [r|] eqn:Hr.
    2:{ split; [done|]. intros [|(? & ? & ? & ? & [= <- <-] & ? & _)]; [done|].
        congruence. }
    destruct (data r) as [d|] eqn:Hd.
    2:{ split.
        - destruct (bool_decide (status r = 0)); [done|].
          intros H. by apply statusMessage_nonempty in H.
        - intros [|(? & ? & ? & ? & [= <- <-] & ? & ? & _)]; [done|].
          congruence. }
    destruct (dataMessageOf d) as [m|] eqn:Hm.
    + split.
      * intros ->. right. exists e, b, r, d. repeat split; try done.
        by apply dataMessageOf_empty.
      * intros [|(? & ? & ? & ? & [= <- <-] & ? & ? & H)]; [done|].
        simplify_eq. apply dataMessageOf_empty in H. congruence.
    + split.
      * destruct (bool_decide (status r = 0)); [done|].
        intros H. by apply statusMessage_nonempty in H.
      * intros [|(? & ? & ? & ? & [= <- <-] & ? & ? & H)]; [done|].
        simplify_eq. apply dataMessageOf_empty in H. congruence.
  - split; [done|]. intros [|(? & ? & ? & ? & ? & _)]; done.
  - split; [intros ->; by left|]. intros [[= ->]|(? & ? & ? & ? & ? & _)]; done.
  - split; [done|]. intros [|(? & ? & ? & ? & ? & _)]; done.
Qed.

(** X17. With a non-empty default, [createApiError] never gives an empty
    message: it keeps the message of [getErrorMessage] when that has text
    and uses the default otherwise. *)
Theorem createApiError_message_never_empty error defaultMessage :
  defaultMessage <> "" ->
  apiMessage (createApiError error defaultMessage) <> "" /\
  (getErrorMessage error <> "" ->
   apiMessage (createApiError error defaultMessage) = getErrorMessage error) /\
  (getErrorMessage error = "" ->
   apiMessage (createApiError error defaultMessage) = defaultMessage).
Proof.
  intros Hd. unfold createApiError.
  destruct (isAxiosError error); cbn [apiMessage]; case_bool_decide; done.
Qed.

Lemma createApiError_message_never_empty_witness :
  "Login failed" <> "" /\
  apiMessage
    (createApiError
       (WithMessage
          (mkAxiosErrorResponse
             (Some (mkErrorResponse 422
                      (Some (mkResponseData (DetailArray []) None))))
             "Request failed with status code 422" None)
          true)
       "Login failed") <> "".
Proof.
  split; [done|].
  apply (createApiError_message_never_empty
           (WithMessage
              (mkAxiosErrorResponse
                 (Some (mkErrorResponse 422
                          (Some (mkResponseData (DetailArray []) None))))
                 "Request failed with status code 422" None)
              true)
           "Login failed").
  done.
Defined.

End ErrorMessages.

(** ** The header of the next request *)

Section NextRequest.

Variable env : Env.

Lemma step_request s c cfg :
  initDone env s = true ->
  microtasks s = [] ->
  effectsOf env s (Request c cfg) =
  [Invoke c cfg;
   Send c (if truthy (getAccessToken s)
           then withAuthorization (bearer (default "" (getAccessToken s))) cfg
           else cfg)].
Proof.
  intros Hd Hm. apply effectsOf_app.
  unfold step. cbn [handle]. unfold apiClient.
  rewrite drain_dispatch by (by destruct s).
  unfold dispatch, requestInterceptor.
  rewrite initialize_done by (by destruct s).
  state_destruct s. state_simpl. by rewrite <- app_assoc.
Qed.

End NextRequest.

(** X20. Requests carry the token the store holds when they leave: after
    [setTokens] the next request is sent with the new access token as
    bearer (with no header added when that token is the empty string), and
    after [clearTokens] it is sent as the caller made it. *)
Theorem request_carries_current_token (env : Env) (s : State)
    (a r : string) (c : CallId) (cfg : Config) :
  initDone env s = true ->
  microtasks s = [] ->
  sends (effectsOf env (setTokens env a r s) (Request c cfg)) =
    [(c, if truthy (Some a) then withAuthorization (bearer a) cfg else cfg)]
  /\ sends (effectsOf env (clearTokens env s) (Request c cfg)) = [(c, cfg)].
Proof.
  intros Hd Hm. split.
  - rewrite step_request.
    + by rewrite setTokens_frame.
    + rewrite setTokens_frame. by destruct s.
    + rewrite setTokens_frame. by destruct s.
  - rewrite step_request.
    + by rewrite clearTokens_frame.
    + rewrite clearTokens_frame. by destruct s.
    + rewrite clearTokens_frame. by destruct s.
Qed.

Lemma request_carries_current_token_witness :
  initDone browser threeInFlight = true /\
  microtasks threeInFlight = [] /\
  sends (effectsOf browser (setTokens browser "A2" "R2" threeInFlight)
           (Request 7 (get "/z"))) =
    [(7, if truthy (Some "A2")
         then withAuthorization (bearer "A2") (get "/z") else get "/z")].
Proof.
  split; [reflexivity|]. split; [reflexivity|].
  apply (request_carries_current_token browser threeInFlight
           "A2" "R2" 7 (get "/z")); reflexivity.
Defined.

(** ** The router *)

Section Router.

Variable env : Env.

Lemma jobEffect_routed e : jobEffect env e -> routed e.
Proof. by destruct e. Qed.

Lemma initialize_navigateFunction s :
  navigateFunction (initialize env s) = navigateFunction s.
Proof. by destruct (initialize_cases env s) as [->|(_ & _ & ->)]. Qed.

Lemma runMicrotask_navigateFunction m s :
  navigateFunction (runMicrotask env m s) = navigateFunction s.
Proof.
  destruct m as [c req tok|c err|c cfg]; cbn [runMicrotask]; [done..|].
  unfold dispatch, requestInterceptor.
  cbn [navigateFunction emit withInFlight]. apply initialize_navigateFunction.
Qed.

Lemma runMicrotasks_navigateFunction fuel : forall s,
  navigateFunction (runMicrotasks env fuel s) = navigateFunction s.
Proof.
  induction fuel as [|fuel IH]; intros s; [done|]. cbn [runMicrotasks].
  destruct (microtasks s) as [|m rest]; [done|].
  by rewrite IH, runMicrotask_navigateFunction.
Qed.

Lemma handle_routed ev s :
  navigateFunction s = true ->
  navigateFunction (handle env ev s) = true /\
  exists new, trace (handle env ev s) = trace s ++ new /\ Forall routed new.
Proof.
  intros Hn.
  assert (Hnone : navigateFunction s = true /\
            exists new : list Effect,
              trace s = trace s ++ new /\ Forall routed new).
  { split; [done|]. exists []. by rewrite app_nil_r. }
  assert (Hnav : forall s0, navigateFunction s0 = true ->
                            navTarget env s0 = Router).
  { intros s0 H0. unfold navTarget. by rewrite H0. }
  destruct ev as [c cfg|c r|c resp|c a r|c e|c|a r| |]; cbn [handle].
  - split; [done|]. eexists [_]. split; [done|]. by apply Forall_singleton.
  - destruct (inFlight s !! c); [|done].
    split; [done|]. eexists [_]. split; [done|]. by apply Forall_singleton.
  - destruct (inFlight s !! c) as [cfg|]; [|done].
    unfold onRejected. cbn [config response].
    destruct (bool_decide (resp = Some 401) && negb (_retry cfg)).
    + destruct (truthy (getRefreshToken _)); cbn [negb].
      * destruct (isRefreshing _).
        -- split; [done|]. exists []. by rewrite app_nil_r.
        -- split; [done|]. eexists [_]. split; [done|].
           by apply Forall_singleton.
      * unfold navigateToLogin. rewrite navigateTo_emit, clearTokens_frame.
        rewrite Hnav by (by destruct s).
        split; [by destruct s|]. eexists [_; _]. split.
        { state_destruct s. state_simpl. by rewrite <- app_assoc. }
        repeat (apply Forall_cons; split; [done|]). apply Forall_nil_2.
    + destruct (bool_decide (resp = None)
                && negb (truthyCount (_retryCount cfg))).
      * split; [done|]. eexists [_]. split; [done|]. by apply Forall_singleton.
      * split; [done|]. eexists [_]. split; [done|]. by apply Forall_singleton.
  - destruct (takeRefresh c (refreshCalls s)) as [[rc rest]|]; [|done].
    unfold refreshSucceeded. rewrite processQueue_spec, setTokens_frame.
    split; [by destruct s|]. eexists [_]. split.
    { state_destruct s. by state_simpl. }
    by apply Forall_singleton.
  - destruct (takeRefresh c (refreshCalls s)) as [[rc rest]|]; [|done].
    unfold refreshFailed, navigateToLogin.
    rewrite navigateTo_emit, clearTokens_frame, processQueue_spec.
    rewrite Hnav by (by destruct s).
    split; [by destruct s|]. eexists [_; _]. split.
    { state_destruct s. state_simpl. by rewrite <- app_assoc. }
    repeat (apply Forall_cons; split; [done|]). apply Forall_nil_2.
  - destruct (timers s !! c); [|done].
    split; [done|]. eexists [_]. split; [done|]. by apply Forall_singleton.
  - rewrite setTokens_frame. split; [by destruct s|].
    exists []. rewrite app_nil_r. by destruct s.
  - rewrite clearTokens_frame. split; [by destruct s|].
    exists []. rewrite app_nil_r. by destruct s.
  - split; [done|]. exists []. by rewrite app_nil_r.
Qed.

Lemma step_routed s ev :
  navigateFunction s = true ->
  navigateFunction (step env s ev) = true /\
  exists new, trace (step env s ev) = trace s ++ new /\ Forall routed new.
Proof.
  intros Hn. destruct (handle_routed ev s Hn) as (Hn1 & n1 & H1 & F1).
  destruct (runMicrotasks_trace env (jobsWeight (microtasks (handle env ev s)))
              (handle env ev s)) as (n2 & H2 & F2).
  unfold step, drain. split.
  - by rewrite runMicrotasks_navigateFunction.
  - exists (n1 ++ n2). rewrite H2, H1, <- app_assoc. split; [done|].
    apply Forall_app. split; [done|].
    eapply Forall_impl; [exact F2|]. apply jobEffect_routed.
Qed.

Lemma run_routed evs : forall s,
  navigateFunction s = true ->
  exists new, trace (run env s evs) = trace s ++ new /\ Forall routed new.
Proof.
  induction evs as [|ev evs IH]; intros s Hn.
  { exists []. by rewrite app_nil_r. }
  rewrite run_cons.
  destruct (step_routed s ev Hn) as (Hn1 & n1 & H1 & F1).
  destruct (IH (step env s ev) Hn1) as (n2 & H2 & F2).
  exists (n1 ++ n2). rewrite H2, H1, <- app_assoc.
  split; [done|]. by apply Forall_app.
Qed.

End Router.

(** X21. Once the application has registered its router with
    [setNavigateFunction], the registration is never lost: whatever happens
    afterwards, every redirect goes through the router and none through
    [window.location]. *)
Theorem router_once_registered_is_used (env : Env) (s : State)
    (evs : list Event) :
  navigateFunction s = true ->
  Forall routed (drop (length (trace s)) (trace (run env s evs))).
Proof.
  intros Hn. destruct (run_routed env evs s Hn) as (new & -> & Hnew).
  by rewrite drop_app_length.
Qed.

Lemma router_once_registered_is_used_witness :
  navigateFunction anonymousInFlight = true /\
  Forall routed
    (drop (length (trace anonymousInFlight))
       (trace (run browser anonymousInFlight [ResponseError 0 (Some 401)]))).
Proof.
  split; [reflexivity|].
  apply (router_once_registered_is_used browser anonymousInFlight
           [ResponseError 0 (Some 401)]).
  reflexivity.
Defined.
